(** * libtio: the native packet format of include/tio/packet.h

    A packet is a 4-byte packed header, a payload of [payload_size] bytes and
    a routing trailer of [routing_size] hop bytes that floats behind the
    payload.  The inline functions of packet.h work through a
    [tl_packet_header *] with byte-pointer arithmetic; they are embedded here
    as computations of a small state monad whose state is the packet the
    pointer designates.  The path codec ([tl_parse_routing]) is only declared
    in the header; its model is taken from the specification. *)

From Stdlib Require Import NArith ZArith List Bool Lia Ascii String.
Import ListNotations.

Open Scope N_scope.

(** ** Machine integers *)

(** Conversion to [uint8_t] and [uint16_t]: reduction modulo the width. *)
Definition uint8 (x : N) : N := x mod 256.
Definition uint16 (x : N) : N := x mod 65536.

(** Conversion to [size_t], whose width [w] is chosen by the platform. *)
Definition size_t (w x : N) : N := x mod 2 ^ w.

(** ** Data model *)

(** [struct tl_packet_header], packed: [uint8_t type], [uint8_t routing_size],
    [uint16_t payload_size]. *)
Record tl_packet_header : Type := mk_header {
  type : N;
  routing_size : N;
  payload_size : N
}.

(** [sizeof(tl_packet_header)]: the three fields without padding. *)
Definition sizeof_header : N := 1 + 1 + 2.

Definition TL_PACKET_MAX_SIZE : N := 512.
Definition TL_PACKET_MAX_ROUTING_SIZE : N := 8.
Definition TL_PACKET_MAX_PAYLOAD_SIZE : N :=
  TL_PACKET_MAX_SIZE - sizeof_header - TL_PACKET_MAX_ROUTING_SIZE.

Definition TL_PTYPE_INVALID : N := 0.
Definition TL_PTYPE_LOG : N := 1.
Definition TL_PTYPE_RPC_REQ : N := 2.
Definition TL_PTYPE_RPC_REP : N := 3.
Definition TL_PTYPE_RPC_ERROR : N := 4.
Definition TL_PTYPE_STREAMDESC : N := 5.
Definition TL_PTYPE_USER : N := 6.
Definition TL_PTYPE_STREAM0 : N := 128.
Definition TL_PTYPE_STREAM (n : N) : N := TL_PTYPE_STREAM0 + n.

(** What a [tl_packet_header *] designates: the header fields and the bytes
    behind them.  [mem] is addressed by the byte offset from the header's
    address, as in [bytes(pkt) + off] with [bytes(pkt)] the header's address
    taken as a byte pointer; offsets below [sizeof_header]
    are the header itself and are never reached through [mem], offsets
    [sizeof_header .. TL_PACKET_MAX_SIZE - 1] are [payload] and
    [__routing_reserved] of [struct tl_packet], and larger offsets lie behind
    the structure.  The header bytes are the record [hdr] and nothing else:
    what [mem] gives below [sizeof_header] stands for no byte of the packet,
    and statements about bytes are made for offsets from [sizeof_header]
    on. *)
Record tl_packet : Type := mk_packet {
  hdr : tl_packet_header;
  mem : N -> N
}.

(** A header the data model accepts. *)
Definition valid_header (h : tl_packet_header) : Prop :=
  type h < 256 /\
  routing_size h <= TL_PACKET_MAX_ROUTING_SIZE /\
  payload_size h <= TL_PACKET_MAX_PAYLOAD_SIZE.

(** ** Access to the packet through the pointer *)

Module PacketM.

Definition M (A : Type) : Type := tl_packet -> A * tl_packet.

Definition ret {A} (a : A) : M A := fun p => (a, p).

Definition bind {A B} (m : M A) (k : A -> M B) : M B :=
  fun p => let (a, p') := m p in k a p'.

(** [pkt->type], [pkt->routing_size], [pkt->payload_size]. *)
Definition read_type : M N := fun p => (type (hdr p), p).
Definition read_routing_size : M N := fun p => (routing_size (hdr p), p).
Definition read_payload_size : M N := fun p => (payload_size (hdr p), p).

(** Assignment to [pkt->routing_size], a [uint8_t] lvalue. *)
Definition write_routing_size (v : N) : M unit :=
  fun p =>
    (tt, mk_packet
           (mk_header (type (hdr p)) (uint8 v) (payload_size (hdr p)))
           (mem p)).

(** Reading the byte [bytes(pkt)[off]]. *)
Definition load (off : N) : M N := fun p => (mem p off, p).

(** The assignment [bytes(pkt)[off] = v] to a [uint8_t] cell. *)
Definition store (off v : N) : M unit :=
  fun p =>
    (tt, mk_packet (hdr p)
           (fun o => if o =? off then uint8 v else mem p o)).

Definition run {A} (m : M A) (p : tl_packet) : A * tl_packet := m p.
Definition result {A} (m : M A) (p : tl_packet) : A := fst (m p).
Definition after {A} (m : M A) (p : tl_packet) : tl_packet := snd (m p).

End PacketM.
Import PacketM.

Declare Scope packet_scope.
Delimit Scope packet_scope with packet.
Notation "x <- m ;; k" := (bind m (fun x => k))
  (at level 61, m at next level, right associativity) : packet_scope.
Notation "m ;;; k" := (bind m (fun _ => k))
  (at level 61, right associativity) : packet_scope.
Open Scope packet_scope.

(** ** The inline functions of packet.h *)

(** [tl_packet_total_size]: [sizeof pkt[0] + pkt->payload_size +
    pkt->routing_size], computed in [size_t] of width [w]. *)
Definition tl_packet_total_size (w : N) : M N :=
  ps <- read_payload_size ;;
  rs <- read_routing_size ;;
  ret (size_t w (sizeof_header + ps + rs)).

(** [tl_packet_payload_data]: [bytes(pkt) + sizeof pkt[0]], as an offset
    from [pkt]. *)
Definition tl_packet_payload_data : M N :=
  ret sizeof_header.

(** [tl_packet_routing_data]:
    [bytes(pkt) + sizeof pkt[0] + pkt->payload_size]. *)
Definition tl_packet_routing_data : M N :=
  ps <- read_payload_size ;;
  ret (sizeof_header + ps).

(** [tl_packet_pop_hop]:
    [(pkt->routing_size == 0) ? -1 :
       tl_packet_routing_data(pkt)[--pkt->routing_size]]. *)
Definition tl_packet_pop_hop : M Z :=
  rs <- read_routing_size ;;
  if rs =? 0 then ret (-1)%Z
  else
    base <- tl_packet_routing_data ;;
    write_routing_size (rs + 255) ;;;
    rs' <- read_routing_size ;;
    v <- load (base + rs') ;;
    ret (Z.of_N v).

(** [tl_packet_push_hop]: refuses when the trailer is full, otherwise
    [tl_packet_routing_data(pkt)[pkt->routing_size++] = hop]. *)
Definition tl_packet_push_hop (hop : N) : M Z :=
  rs <- read_routing_size ;;
  if TL_PACKET_MAX_ROUTING_SIZE <=? rs then ret (-1)%Z
  else
    base <- tl_packet_routing_data ;;
    write_routing_size (rs + 1) ;;;
    store (base + rs) hop ;;;
    ret 0%Z.

(** [tl_packet_stream_id]:
    [(pkt->type >= TL_PTYPE_STREAM0) ? (pkt->type - TL_PTYPE_STREAM0) : -1]. *)
Definition tl_packet_stream_id : M Z :=
  t <- read_type ;;
  ret (if TL_PTYPE_STREAM0 <=? t
       then (Z.of_N t - Z.of_N TL_PTYPE_STREAM0)%Z
       else (-1)%Z).

(** Repeated calls, as a relay or a packet builder makes them. *)
Fixpoint pop_hops (n : nat) : M (list Z) :=
  match n with
  | O => ret []
  | S n' =>
      r <- tl_packet_pop_hop ;;
      rs <- pop_hops n' ;;
      ret (r :: rs)
  end.

Fixpoint push_hops (hops : list N) : M (list Z) :=
  match hops with
  | [] => ret []
  | h :: hops' =>
      r <- tl_packet_push_hop h ;;
      rs <- push_hops hops' ;;
      ret (r :: rs)
  end.

(** A caller's assignment to [pkt->payload_size], a [uint16_t] lvalue. *)
Definition set_payload_size (v : N) (p : tl_packet) : tl_packet :=
  mk_packet (mk_header (type (hdr p)) (routing_size (hdr p)) (uint16 v))
            (mem p).

(** Sample packet used by the concrete checks: a log packet with a
    three-byte payload and two hops, 9 then 7, in the trailer. *)
Definition sample_mem : N -> N :=
  fun o => match o with
           | 4 => 104 | 5 => 105 | 6 => 33
           | 7 => 9 | 8 => 7
           | _ => 0
           end.
Definition sample_packet : tl_packet :=
  mk_packet (mk_header TL_PTYPE_LOG 2 3) sample_mem.

(** The same buffer seen as a user packet without a route. *)
Definition empty_route_packet : tl_packet :=
  mk_packet (mk_header TL_PTYPE_USER 0 3) sample_mem.

(** A header whose payload size is beyond the capacity of a packet. *)
Definition oversize_packet : tl_packet :=
  mk_packet (mk_header TL_PTYPE_USER 7 505) sample_mem.

(** A data packet of stream 5. *)
Definition stream5_packet : tl_packet :=
  mk_packet (mk_header (TL_PTYPE_STREAM 5) 0 3) sample_mem.

(** ** The routing path codec *)

(** [tl_parse_routing] is declared in packet.h and defined in a source file
    outside this header; the definitions of this section follow the
    specification of [parse_path]. *)

Definition slash : ascii := "/"%char.

(** The segments of a path: the substrings between the slashes. *)
Fixpoint split_slash (s : string) : list string :=
  match s with
  | EmptyString => [EmptyString]
  | String c s' =>
      if Ascii.eqb c slash then EmptyString :: split_slash s'
      else match split_slash s' with
           | seg :: segs => String c seg :: segs
           | [] => [String c EmptyString]
           end
  end.

Definition is_empty (s : string) : bool :=
  match s with
  | EmptyString => true
  | String _ _ => false
  end.

(** One empty segment in front (left by a leading slash) is ignored. *)
Definition drop_leading_empty (segs : list string) : list string :=
  match segs with
  | seg :: segs' => if is_empty seg then segs' else segs
  | [] => []
  end.

(** One empty segment at the end (left by a trailing slash) is ignored. *)
Definition drop_trailing_empty (segs : list string) : list string :=
  match rev segs with
  | seg :: segs' => if is_empty seg then rev segs' else segs
  | [] => []
  end.

Definition path_segments (s : string) : list string :=
  drop_trailing_empty (drop_leading_empty (split_slash s)).

Definition digit_value (c : ascii) : option N :=
  let n := N_of_ascii c in
  if (48 <=? n) && (n <=? 57) then Some (n - 48) else None.

Fixpoint parse_digits (acc : N) (s : string) : option N :=
  match s with
  | EmptyString => Some acc
  | String c s' =>
      match digit_value c with
      | Some d => parse_digits (10 * acc + d) s'
      | None => None
      end
  end.

(** A segment is a non-empty run of decimal digits whose value is a byte. *)
Definition parse_segment (seg : string) : option N :=
  if is_empty seg then None
  else match parse_digits 0 seg with
       | Some v => if v <=? 255 then Some v else None
       | None => None
       end.

Fixpoint parse_segments (segs : list string) : option (list N) :=
  match segs with
  | [] => Some []
  | seg :: segs' =>
      match parse_segment seg with
      | Some h =>
          match parse_segments segs' with
          | Some hs => Some (h :: hs)
          | None => None
          end
      | None => None
      end
  end.

(** Modelled from the spec: [parse_path], the body of [tl_parse_routing],
    which packet.h declares and no file under src/ defines.  The path is
    split on the slash, one leading and one trailing empty segment are
    ignored, every other segment must be a decimal byte, and at most
    [TL_PACKET_MAX_ROUTING_SIZE] hops are accepted; the hops come out in the
    order of the segments.  [None] is the spec's [ParseError]. *)
Definition parse_path (s : string) : option (list N) :=
  let segs := path_segments s in
  if TL_PACKET_MAX_ROUTING_SIZE <? N.of_nat (List.length segs) then None
  else parse_segments segs.

(** Return value of [tl_parse_routing]: the number of hops, or -1. *)
Definition tl_parse_routing_result (s : string) : Z :=
  match parse_path s with
  | Some hops => Z.of_nat (List.length hops)
  | None => (-1)%Z
  end.

(** ** The layout of [struct tl_packet] *)

(** Offsets of the members [payload] and [__routing_reserved] and the size
    of the structure: a packed header followed by two byte arrays of
    [TL_PACKET_MAX_PAYLOAD_SIZE] and [TL_PACKET_MAX_ROUTING_SIZE] bytes. *)
Definition offsetof_payload : N := sizeof_header.
Definition offsetof_routing_reserved : N :=
  offsetof_payload + TL_PACKET_MAX_PAYLOAD_SIZE.
Definition sizeof_packet : N :=
  offsetof_routing_reserved + TL_PACKET_MAX_ROUTING_SIZE.

(** [TL_ROUTING_FMT_BUF_SIZE]. *)
Definition TL_ROUTING_FMT_BUF_SIZE : N := TL_PACKET_MAX_ROUTING_SIZE * 4 + 2.

(** The routing data of a packet read as a list: the [routing_size] bytes
    from [tl_packet_routing_data] on, lowest offset first. *)
Definition trailer (p : tl_packet) : list N :=
  map (fun i : nat =>
         mem p (result tl_packet_routing_data p + N.of_nat i))
      (seq 0 (N.to_nat (routing_size (hdr p)))).

(** ** The member functions of [tl_packet_header] under C++ *)

Module Cxx.

(** [total_size() const]: [tl_packet_total_size(this)]. *)
Definition total_size (w : N) : M N := tl_packet_total_size w.

(** [payload_data()], in both its overloads: the byte pointer [this] plus
    [sizeof this[0]]. *)
Definition payload_data : M N := ret sizeof_header.

(** [routing_data()], in both its overloads: the byte pointer [this] plus
    [sizeof this[0]] plus [payload_size]. *)
Definition routing_data : M N :=
  ps <- read_payload_size ;;
  ret (sizeof_header + ps).

(** [stream_id() const]: [tl_packet_stream_id(this)]. *)
Definition stream_id : M Z := tl_packet_stream_id.

End Cxx.

(** ** Sequences of hop operations *)

(** What a relay or a builder does to the trailer of one packet: calls of
    [tl_packet_push_hop] and [tl_packet_pop_hop] in any order. *)
Inductive hop_op : Type :=
| Push (hop : N)
| Pop.

Definition do_op (op : hop_op) : M Z :=
  match op with
  | Push hop => tl_packet_push_hop hop
  | Pop => tl_packet_pop_hop
  end.

Fixpoint do_ops (ops : list hop_op) : M (list Z) :=
  match ops with
  | [] => ret []
  | op :: ops' =>
      r <- do_op op ;;
      rs <- do_ops ops' ;;
      ret (r :: rs)
  end.

(** Reference model: a stack of bytes of capacity
    [TL_PACKET_MAX_ROUTING_SIZE], bottom first, with the results the two
    functions document (0 or -1 for a push, the hop or -1 for a pop). *)
Definition stack_step (st : list N) (op : hop_op) : Z * list N :=
  match op with
  | Push hop =>
      if TL_PACKET_MAX_ROUTING_SIZE <=? N.of_nat (List.length st)
      then ((-1)%Z, st)
      else (0%Z, st ++ [uint8 hop])
  | Pop =>
      match rev st with
      | [] => ((-1)%Z, st)
      | top :: _ => (Z.of_N top, removelast st)
      end
  end.

Fixpoint stack_run (ops : list hop_op) (st : list N) : list Z * list N :=
  match ops with
  | [] => ([], st)
  | op :: ops' =>
      let (r, st1) := stack_step st op in
      let (rs, st2) := stack_run ops' st1 in
      (r :: rs, st2)
  end.

(** A header whose sizes a 16-bit [size_t] cannot add up. *)
Definition huge_packet : tl_packet :=
  mk_packet (mk_header TL_PTYPE_USER 255 65535) sample_mem.

(** * Properties *)

Example pop_sample :
  result tl_packet_pop_hop sample_packet = 7%Z /\
  routing_size (hdr (after tl_packet_pop_hop sample_packet)) = 1.
Proof. split; reflexivity. Qed.

Example push_sample :
  result (tl_packet_push_hop 5) sample_packet = 0%Z /\
  mem (after (tl_packet_push_hop 5) sample_packet) 9 = 5 /\
  routing_size (hdr (after (tl_packet_push_hop 5) sample_packet)) = 3.
Proof. repeat split; reflexivity. Qed.

Example parse_sample :
  parse_path "/3/1/" = Some [3; 1] /\
  parse_path "" = Some [] /\
  parse_path "/" = Some [] /\
  parse_path "//" = None /\
  parse_path "/007/255" = Some [7; 255] /\
  parse_path "/1/x/" = None /\
  parse_path "1/2/3/4/5/6/7/8" = Some [1; 2; 3; 4; 5; 6; 7; 8].
Proof. repeat split; reflexivity. Qed.

(** ** Machine arithmetic *)

Lemma uint8_small (x : N) : x < 256 -> uint8 x = x.
Proof. intro H. unfold uint8. now apply N.mod_small. Qed.

Lemma uint8_bound (x : N) : uint8 x < 256.
Proof. unfold uint8. now apply N.mod_upper_bound. Qed.

Lemma uint8_pred (x : N) : 0 < x -> x < 256 -> uint8 (x + 255) = x - 1.
Proof.
  intros H0 H. unfold uint8.
  replace (x + 255) with (x - 1 + 1 * 256) by lia.
  rewrite N.Div0.mod_add. apply N.mod_small. lia.
Qed.

Lemma size_t_small (w x : N) : 16 <= w -> x < 65536 -> size_t w x = x.
Proof.
  intros Hw Hx. unfold size_t. apply N.mod_small.
  apply N.lt_le_trans with (2 ^ 16); [exact Hx|].
  apply N.pow_le_mono_r; [discriminate | exact Hw].
Qed.

(** ** Unfolding the accessors *)

Ltac unfold_packet :=
  unfold run, result, after,
    tl_packet_total_size, tl_packet_payload_data, tl_packet_routing_data,
    tl_packet_pop_hop, tl_packet_push_hop, tl_packet_stream_id,
    bind, ret, read_type, read_routing_size, read_payload_size,
    write_routing_size, load, store in *.

Lemma pop_hop_empty (p : tl_packet) :
  routing_size (hdr p) = 0 -> run tl_packet_pop_hop p = ((-1)%Z, p).
Proof. intro H. unfold_packet. rewrite H. reflexivity. Qed.

Lemma pop_hop_nonempty (p : tl_packet) :
  routing_size (hdr p) <> 0 ->
  run tl_packet_pop_hop p =
    (Z.of_N (mem p (sizeof_header + payload_size (hdr p)
                    + uint8 (routing_size (hdr p) + 255))),
     mk_packet (mk_header (type (hdr p))
                          (uint8 (routing_size (hdr p) + 255))
                          (payload_size (hdr p)))
               (mem p)).
Proof.
  intro H. unfold_packet.
  destruct (N.eqb_spec (routing_size (hdr p)) 0) as [E|_]; [contradiction|].
  reflexivity.
Qed.

Lemma push_hop_full (hop : N) (p : tl_packet) :
  TL_PACKET_MAX_ROUTING_SIZE <= routing_size (hdr p) ->
  run (tl_packet_push_hop hop) p = ((-1)%Z, p).
Proof.
  intro H. unfold_packet.
  destruct (N.leb_spec TL_PACKET_MAX_ROUTING_SIZE (routing_size (hdr p)));
    [reflexivity | lia].
Qed.

Lemma push_hop_room (hop : N) (p : tl_packet) :
  routing_size (hdr p) < TL_PACKET_MAX_ROUTING_SIZE ->
  run (tl_packet_push_hop hop) p =
    (0%Z,
     mk_packet (mk_header (type (hdr p))
                          (uint8 (routing_size (hdr p) + 1))
                          (payload_size (hdr p)))
               (fun o =>
                  if o =? sizeof_header + payload_size (hdr p)
                          + routing_size (hdr p)
                  then uint8 hop else mem p o)).
Proof.
  intro H. unfold_packet.
  destruct (N.leb_spec TL_PACKET_MAX_ROUTING_SIZE (routing_size (hdr p)));
    [lia | reflexivity].
Qed.

(** Inside [struct tl_packet], a push on a valid header writes no byte behind
    the structure. *)
Lemma push_hop_in_packet (p : tl_packet) :
  valid_header (hdr p) ->
  routing_size (hdr p) < TL_PACKET_MAX_ROUTING_SIZE ->
  sizeof_header <= sizeof_header + payload_size (hdr p) + routing_size (hdr p)
  /\ sizeof_header + payload_size (hdr p) + routing_size (hdr p)
     < TL_PACKET_MAX_SIZE.
Proof.
  unfold valid_header, TL_PACKET_MAX_PAYLOAD_SIZE, TL_PACKET_MAX_SIZE,
    TL_PACKET_MAX_ROUTING_SIZE, sizeof_header.
  intros (_ & _ & Hp) Hr. lia.
Qed.

(** ** Total size *)

(** C1: for every header within capacity ([routing_size <= 8] and
    [payload_size <= 512 - header size - 8]), [tl_packet_total_size] returns
    header size + [payload_size] + [routing_size], and that value is at most
    512.  The width [w] of [size_t] is at least 16 on every C platform. *)
Theorem total_size_within_capacity (w : N) (p : tl_packet) :
  16 <= w ->
  routing_size (hdr p) <= TL_PACKET_MAX_ROUTING_SIZE ->
  payload_size (hdr p)
    <= TL_PACKET_MAX_SIZE - sizeof_header - TL_PACKET_MAX_ROUTING_SIZE ->
  result (tl_packet_total_size w) p
    = sizeof_header + payload_size (hdr p) + routing_size (hdr p)
  /\ result (tl_packet_total_size w) p <= TL_PACKET_MAX_SIZE.
Proof.
  unfold TL_PACKET_MAX_SIZE, TL_PACKET_MAX_ROUTING_SIZE, sizeof_header.
  intros Hw Hr Hp.
  assert (E : result (tl_packet_total_size w) p
              = 1 + 1 + 2 + payload_size (hdr p) + routing_size (hdr p)).
  { unfold_packet. cbn [fst]. unfold sizeof_header.
    apply size_t_small; [exact Hw | lia]. }
  rewrite E. split; [reflexivity | lia].
Qed.

Lemma total_size_within_capacity_witness :
  16 <= 32
  /\ routing_size (hdr sample_packet) <= TL_PACKET_MAX_ROUTING_SIZE
  /\ payload_size (hdr sample_packet)
       <= TL_PACKET_MAX_SIZE - sizeof_header - TL_PACKET_MAX_ROUTING_SIZE
  /\ result (tl_packet_total_size 32) sample_packet = 9
  /\ result (tl_packet_total_size 32) sample_packet <= TL_PACKET_MAX_SIZE.
Proof.
  assert (Hw : 16 <= 32) by (vm_compute; discriminate).
  assert (Hr : routing_size (hdr sample_packet) <= TL_PACKET_MAX_ROUTING_SIZE)
    by (vm_compute; discriminate).
  assert (Hp : payload_size (hdr sample_packet)
               <= TL_PACKET_MAX_SIZE - sizeof_header
                  - TL_PACKET_MAX_ROUTING_SIZE)
    by (vm_compute; discriminate).
  split; [exact Hw|]. split; [exact Hr|]. split; [exact Hp|].
  exact (total_size_within_capacity 32 sample_packet Hw Hr Hp).
Defined.

(** ** The hop stack *)

(** C2: for every packet with [routing_size < 8] and every hop byte [b],
    [tl_packet_push_hop] of [b] followed at once by [tl_packet_pop_hop]
    succeeds (0 from the push, a hop from the pop), the pop returns [b], and
    [routing_size] is back at its value before the push. *)
Theorem push_pop_roundtrip (p : tl_packet) (b : N) :
  routing_size (hdr p) < TL_PACKET_MAX_ROUTING_SIZE ->
  b < 256 ->
  result (tl_packet_push_hop b) p = 0%Z
  /\ result tl_packet_pop_hop (after (tl_packet_push_hop b) p) = Z.of_N b
  /\ routing_size
       (hdr (after tl_packet_pop_hop (after (tl_packet_push_hop b) p)))
     = routing_size (hdr p).
Proof.
  intros Hr Hb.
  pose proof (push_hop_room b p Hr) as Epush. unfold run in Epush.
  unfold result, after. rewrite Epush. cbn [fst snd].
  unfold TL_PACKET_MAX_ROUTING_SIZE in Hr.
  assert (Hinc : uint8 (routing_size (hdr p) + 1) = routing_size (hdr p) + 1)
    by (apply uint8_small; lia).
  assert (Hdec : uint8 (routing_size (hdr p) + 1 + 255) = routing_size (hdr p)).
  { rewrite uint8_pred; lia. }
  match goal with
  | |- context [tl_packet_pop_hop ?q] =>
      pose proof (pop_hop_nonempty q) as Epop
  end.
  unfold run in Epop. cbn [hdr mem routing_size payload_size type] in Epop.
  rewrite Epop by (rewrite Hinc; lia).
  cbn [fst snd hdr mem routing_size payload_size type].
  rewrite Hinc, Hdec, N.eqb_refl, (uint8_small b Hb).
  repeat split.
Qed.

Lemma push_pop_roundtrip_witness :
  routing_size (hdr sample_packet) < TL_PACKET_MAX_ROUTING_SIZE
  /\ 200 < 256
  /\ result (tl_packet_push_hop 200) sample_packet = 0%Z
  /\ result tl_packet_pop_hop (after (tl_packet_push_hop 200) sample_packet)
     = 200%Z
  /\ routing_size
       (hdr (after tl_packet_pop_hop
               (after (tl_packet_push_hop 200) sample_packet)))
     = 2.
Proof.
  assert (Hr : routing_size (hdr sample_packet) < TL_PACKET_MAX_ROUTING_SIZE)
    by reflexivity.
  assert (Hb : 200 < 256) by reflexivity.
  split; [exact Hr|]. split; [exact Hb|].
  exact (push_pop_roundtrip sample_packet 200 Hr Hb).
Defined.

(** C3: for every packet with [routing_size = 0], [tl_packet_pop_hop]
    returns -1 (the spec's [EmptyRouting]) and leaves the whole packet as it
    was; any number of further pops fails the same way on the same state. *)
Theorem pop_empty_idempotent (p : tl_packet) :
  routing_size (hdr p) = 0 ->
  run tl_packet_pop_hop p = ((-1)%Z, p)
  /\ forall n : nat, run (pop_hops n) p = (repeat (-1)%Z n, p).
Proof.
  intro H. split; [exact (pop_hop_empty p H)|].
  induction n as [|n IH].
  - reflexivity.
  - unfold run in *. cbn [pop_hops repeat]. unfold bind at 1.
    change (tl_packet_pop_hop p) with (run tl_packet_pop_hop p).
    rewrite (pop_hop_empty p H).
    unfold bind at 1. rewrite IH. reflexivity.
Qed.

Lemma pop_empty_idempotent_witness :
  routing_size (hdr empty_route_packet) = 0
  /\ run tl_packet_pop_hop empty_route_packet = ((-1)%Z, empty_route_packet)
  /\ run (pop_hops 3) empty_route_packet
     = ([(-1)%Z; (-1)%Z; (-1)%Z], empty_route_packet).
Proof.
  assert (H : routing_size (hdr empty_route_packet) = 0) by reflexivity.
  split; [exact H|].
  split.
  - exact (proj1 (pop_empty_idempotent empty_route_packet H)).
  - exact (proj2 (pop_empty_idempotent empty_route_packet H) 3%nat).
Defined.

(** Pushing a list of hops that fits the trailer: every push returns 0, the
    hops are stored upwards from the old end of the trailer, and nothing
    else changes. *)
Lemma push_hops_fit (hops : list N) :
  forall p : tl_packet,
    routing_size (hdr p) + N.of_nat (List.length hops)
      <= TL_PACKET_MAX_ROUTING_SIZE ->
    result (push_hops hops) p = repeat 0%Z (List.length hops)
    /\ routing_size (hdr (after (push_hops hops) p))
       = routing_size (hdr p) + N.of_nat (List.length hops)
    /\ payload_size (hdr (after (push_hops hops) p)) = payload_size (hdr p)
    /\ type (hdr (after (push_hops hops) p)) = type (hdr p)
    /\ (forall i : nat, (i < List.length hops)%nat ->
          mem (after (push_hops hops) p)
              (sizeof_header + payload_size (hdr p) + routing_size (hdr p)
               + N.of_nat i)
          = uint8 (nth i hops 0))
    /\ (forall o : N,
          o < sizeof_header + payload_size (hdr p) + routing_size (hdr p) ->
          mem (after (push_hops hops) p) o = mem p o).
Proof.
  unfold TL_PACKET_MAX_ROUTING_SIZE.
  induction hops as [|h hops IH]; intros p Hfit.
  - cbn. rewrite N.add_0_r. repeat split; try reflexivity.
    intros i Hi. inversion Hi.
  - cbn [List.length] in Hfit.
    assert (Hr : routing_size (hdr p) < TL_PACKET_MAX_ROUTING_SIZE)
      by (unfold TL_PACKET_MAX_ROUTING_SIZE; lia).
    pose proof (push_hop_room h p Hr) as Epush. unfold run in Epush.
    set (p1 := snd (tl_packet_push_hop h p)).
    assert (Hrs1 : routing_size (hdr p1) = routing_size (hdr p) + 1).
    { subst p1. rewrite Epush. cbn. apply uint8_small.
      unfold TL_PACKET_MAX_ROUTING_SIZE in Hr. lia. }
    assert (Hps1 : payload_size (hdr p1) = payload_size (hdr p))
      by (subst p1; rewrite Epush; reflexivity).
    assert (Hty1 : type (hdr p1) = type (hdr p))
      by (subst p1; rewrite Epush; reflexivity).
    assert (Hmem1 : forall o, mem p1 o =
              if o =? sizeof_header + payload_size (hdr p)
                      + routing_size (hdr p)
              then uint8 h else mem p o)
      by (intro o; subst p1; rewrite Epush; reflexivity).
    destruct (IH p1) as (Hres & Hrs & Hps & Hty & Hst & Hlow); [lia|].
    assert (Erun : push_hops (h :: hops) p =
                   (0%Z :: result (push_hops hops) p1,
                    after (push_hops hops) p1)).
    { cbn [push_hops]. unfold bind at 1. fold p1.
      rewrite (surjective_pairing (tl_packet_push_hop h p)).
      fold p1. rewrite Epush. cbn [fst].
      unfold bind, ret, result, after.
      destruct (push_hops hops p1); reflexivity. }
    unfold result, after. rewrite Erun. cbn [fst snd].
    rewrite Hres, Hrs, Hps, Hty, Hrs1.
    split; [reflexivity|]. split; [cbn [List.length]; lia|].
    split; [exact Hps1|]. split; [exact Hty1|]. split.
    + intros [|i] Hi.
      * rewrite Hlow by (rewrite Hps1, Hrs1; lia).
        rewrite Hmem1, N.add_0_r, N.eqb_refl. reflexivity.
      * cbn [nth]. cbn [List.length] in Hi.
        rewrite <- Hst by lia. rewrite Hps1, Hrs1. f_equal. lia.
    + intros o Ho. rewrite Hlow by (rewrite Hps1, Hrs1; lia).
      rewrite Hmem1.
      destruct (N.eqb_spec o
                  (sizeof_header + payload_size (hdr p)
                   + routing_size (hdr p))); [lia | reflexivity].
Qed.

(** C4: from every packet with [routing_size = 0], eight pushes all return
    0; a ninth push returns -1 (the spec's [RoutingFull]) and leaves the
    packet, so the trailer bytes and [routing_size], as the eight pushes
    left it. *)
Theorem push_capacity_boundary (p : tl_packet) (hops : list N) (ninth : N) :
  routing_size (hdr p) = 0 ->
  List.length hops = 8%nat ->
  result (push_hops hops) p = repeat 0%Z 8
  /\ routing_size (hdr (after (push_hops hops) p)) = 8
  /\ run (tl_packet_push_hop ninth) (after (push_hops hops) p)
     = ((-1)%Z, after (push_hops hops) p).
Proof.
  intros H0 Hlen.
  destruct (push_hops_fit hops p) as (Hres & Hrs & _).
  { rewrite H0, Hlen. unfold TL_PACKET_MAX_ROUTING_SIZE. cbn. lia. }
  rewrite Hlen in Hres, Hrs. rewrite H0 in Hrs. cbn in Hrs.
  repeat split; [exact Hres | exact Hrs |].
  apply push_hop_full. rewrite Hrs. unfold TL_PACKET_MAX_ROUTING_SIZE. lia.
Qed.

Lemma push_capacity_boundary_witness :
  routing_size (hdr empty_route_packet) = 0
  /\ List.length [11; 12; 13; 14; 15; 16; 17; 18] = 8%nat
  /\ result (push_hops [11; 12; 13; 14; 15; 16; 17; 18]) empty_route_packet
     = repeat 0%Z 8
  /\ routing_size
       (hdr (after (push_hops [11; 12; 13; 14; 15; 16; 17; 18])
                   empty_route_packet)) = 8
  /\ run (tl_packet_push_hop 19)
         (after (push_hops [11; 12; 13; 14; 15; 16; 17; 18])
                empty_route_packet)
     = ((-1)%Z,
        after (push_hops [11; 12; 13; 14; 15; 16; 17; 18]) empty_route_packet).
Proof.
  assert (H0 : routing_size (hdr empty_route_packet) = 0) by reflexivity.
  assert (Hl : List.length [11; 12; 13; 14; 15; 16; 17; 18] = 8%nat)
    by reflexivity.
  split; [exact H0|]. split; [exact Hl|].
  exact (push_capacity_boundary empty_route_packet
           [11; 12; 13; 14; 15; 16; 17; 18] 19 H0 Hl).
Defined.

(** ** Stream identifiers *)

(** C5: on a header whose type is [128 + n] with [n] in 0..127,
    [tl_packet_stream_id] returns [n]; on every type in 0..127 it returns -1
    ("not a stream"); in both cases the packet is left as it was. *)
Theorem stream_id_spec (p : tl_packet) :
  (forall n : N, n <= 127 -> type (hdr p) = TL_PTYPE_STREAM n ->
     run tl_packet_stream_id p = (Z.of_N n, p))
  /\ (type (hdr p) <= 127 -> run tl_packet_stream_id p = ((-1)%Z, p)).
Proof.
  unfold TL_PTYPE_STREAM. unfold_packet. unfold TL_PTYPE_STREAM0. split.
  - intros n Hn Ht. rewrite Ht.
    destruct (N.leb_spec 128 (128 + n)); [|lia].
    f_equal. lia.
  - intro Ht.
    destruct (N.leb_spec 128 (type (hdr p))); [lia | reflexivity].
Qed.

Lemma stream_id_spec_witness :
  (5 <= 127 /\ type (hdr stream5_packet) = TL_PTYPE_STREAM 5
   /\ run tl_packet_stream_id stream5_packet = (5%Z, stream5_packet))
  /\ (type (hdr sample_packet) <= 127
      /\ run tl_packet_stream_id sample_packet = ((-1)%Z, sample_packet)).
Proof.
  assert (Hn : 5 <= 127) by (vm_compute; discriminate).
  assert (Ht : type (hdr stream5_packet) = TL_PTYPE_STREAM 5) by reflexivity.
  assert (Hl : type (hdr sample_packet) <= 127) by (vm_compute; discriminate).
  split.
  - split; [exact Hn|]. split; [exact Ht|].
    exact (proj1 (stream_id_spec stream5_packet) 5 Hn Ht).
  - split; [exact Hl|].
    exact (proj2 (stream_id_spec sample_packet) Hl).
Defined.

(** ** Offsets of the payload and of the trailer *)

(** C6: for every packet the payload begins at the offset [sizeof_header],
    whatever the header says, and the trailer begins at
    [sizeof_header + payload_size]: two packets have the same routing offset
    exactly when they have the same [payload_size], and after an assignment
    to [payload_size] the routing offset is the header size plus the new
    value. *)
Theorem payload_and_routing_offsets (p q : tl_packet) (v : N) :
  result tl_packet_payload_data p = sizeof_header
  /\ result tl_packet_payload_data q = result tl_packet_payload_data p
  /\ result tl_packet_routing_data p = sizeof_header + payload_size (hdr p)
  /\ (result tl_packet_routing_data q = result tl_packet_routing_data p
      <-> payload_size (hdr q) = payload_size (hdr p))
  /\ result tl_packet_routing_data (set_payload_size v p)
     = sizeof_header + uint16 v.
Proof.
  unfold_packet. unfold set_payload_size.
  cbn [fst hdr payload_size].
  split; [reflexivity|]. split; [reflexivity|]. split; [reflexivity|].
  split; [|reflexivity].
  split; intro H; lia.
Qed.

Lemma payload_and_routing_offsets_witness :
  result tl_packet_payload_data sample_packet = 4
  /\ result tl_packet_routing_data sample_packet = 7
  /\ result tl_packet_routing_data (set_payload_size 100 sample_packet) = 104
  /\ (result tl_packet_routing_data oversize_packet
      = result tl_packet_routing_data sample_packet -> 505 = 3).
Proof.
  pose proof (payload_and_routing_offsets sample_packet oversize_packet 100)
    as (H1 & _ & H3 & H4 & H5).
  split; [exact H1|]. split; [exact H3|]. split; [exact H5|].
  exact (proj1 H4).
Defined.

(** ** What each operation changes *)

(** C7: [tl_packet_pop_hop] and [tl_packet_push_hop] change nothing but
    [routing_size] and at most one byte, which lies in the trailer region
    (the eight offsets from [sizeof_header + payload_size] on): [type],
    [payload_size] and every payload byte stay as they were.  The pop changes
    no byte at all, the push only the byte at the old end of the trailer.
    [tl_packet_total_size], [tl_packet_payload_data],
    [tl_packet_routing_data] and [tl_packet_stream_id] return the packet as
    they found it. *)
Theorem hop_operations_frame (w hop : N) (p : tl_packet) :
  (type (hdr (after tl_packet_pop_hop p)) = type (hdr p)
   /\ payload_size (hdr (after tl_packet_pop_hop p)) = payload_size (hdr p)
   /\ forall o : N, mem (after tl_packet_pop_hop p) o = mem p o)
  /\ (type (hdr (after (tl_packet_push_hop hop) p)) = type (hdr p)
      /\ payload_size (hdr (after (tl_packet_push_hop hop) p))
         = payload_size (hdr p)
      /\ (forall o : N,
            mem (after (tl_packet_push_hop hop) p) o <> mem p o ->
            o = sizeof_header + payload_size (hdr p) + routing_size (hdr p)
            /\ sizeof_header + payload_size (hdr p) <= o
            /\ o < sizeof_header + payload_size (hdr p)
                   + TL_PACKET_MAX_ROUTING_SIZE)
      /\ (forall o : N,
            sizeof_header <= o < sizeof_header + payload_size (hdr p) ->
            mem (after (tl_packet_push_hop hop) p) o = mem p o))
  /\ after (tl_packet_total_size w) p = p
  /\ after tl_packet_payload_data p = p
  /\ after tl_packet_routing_data p = p
  /\ after tl_packet_stream_id p = p.
Proof.
  split; [|split; [|repeat split]].
  - unfold after.
    destruct (N.eq_dec (routing_size (hdr p)) 0) as [E|E].
    + pose proof (pop_hop_empty p E) as H. unfold run in H. rewrite H.
      repeat split.
    + pose proof (pop_hop_nonempty p E) as H. unfold run in H. rewrite H.
      repeat split.
  - unfold after.
    destruct (N.le_gt_cases TL_PACKET_MAX_ROUTING_SIZE (routing_size (hdr p)))
      as [Hfull|Hroom].
    + pose proof (push_hop_full hop p Hfull) as H. unfold run in H. rewrite H.
      cbn [snd]. split; [reflexivity|]. split; [reflexivity|].
      split; [intros o Ho; now elim Ho | reflexivity].
    + pose proof (push_hop_room hop p Hroom) as H. unfold run in H. rewrite H.
      cbn [snd hdr mem type payload_size].
      split; [reflexivity|]. split; [reflexivity|]. split.
      * intros o Ho.
        destruct (N.eqb_spec o
                    (sizeof_header + payload_size (hdr p)
                     + routing_size (hdr p))) as [E|E];
          [|now elim Ho].
        split; [exact E|]. lia.
      * intros o [_ Ho].
        destruct (N.eqb_spec o
                    (sizeof_header + payload_size (hdr p)
                     + routing_size (hdr p))); [lia | reflexivity].
Qed.

Lemma hop_operations_frame_witness :
  mem (after (tl_packet_push_hop 5) sample_packet) 9 <> mem sample_packet 9
  /\ 9 = sizeof_header + payload_size (hdr sample_packet)
         + routing_size (hdr sample_packet)
  /\ (sizeof_header <= 5
        < sizeof_header + payload_size (hdr sample_packet))
  /\ mem (after (tl_packet_push_hop 5) sample_packet) 5 = mem sample_packet 5
  /\ mem (after tl_packet_pop_hop sample_packet) 8 = mem sample_packet 8
  /\ after (tl_packet_total_size 32) sample_packet = sample_packet.
Proof.
  pose proof (hop_operations_frame 32 5 sample_packet)
    as ((_ & _ & Hpop) & (_ & _ & Hone & Hpay) & Htot & _).
  assert (Hne : mem (after (tl_packet_push_hop 5) sample_packet) 9
                <> mem sample_packet 9) by (vm_compute; discriminate).
  assert (Hin : sizeof_header <= 5
                < sizeof_header + payload_size (hdr sample_packet))
    by (split; vm_compute; [discriminate | reflexivity]).
  split; [exact Hne|].
  split; [exact (proj1 (Hone 9 Hne))|].
  split; [exact Hin|].
  split; [exact (Hpay 5 Hin)|].
  split; [exact (Hpop 8) | exact Htot].
Defined.

(** ** The only check of a push *)

(** C10: [tl_packet_push_hop] returns 0 exactly when [routing_size < 8] and
    -1 otherwise; the total size plays no part.  In particular, on a header
    with header size + [payload_size] + [routing_size] + 1 above 512 and
    [routing_size < 8], the push of any hop byte returns 0, increments
    [routing_size] and stores the hop at an offset that is no longer inside
    the 512 bytes of the packet. *)
Theorem push_hop_succeeds_iff_room (hop : N) (p : tl_packet) :
  (result (tl_packet_push_hop hop) p = 0%Z
   <-> routing_size (hdr p) < TL_PACKET_MAX_ROUTING_SIZE)
  /\ (result (tl_packet_push_hop hop) p = (-1)%Z
      <-> TL_PACKET_MAX_ROUTING_SIZE <= routing_size (hdr p))
  /\ (routing_size (hdr p) < TL_PACKET_MAX_ROUTING_SIZE ->
      TL_PACKET_MAX_SIZE
        < sizeof_header + payload_size (hdr p) + routing_size (hdr p) + 1 ->
      result (tl_packet_push_hop hop) p = 0%Z
      /\ routing_size (hdr (after (tl_packet_push_hop hop) p))
         = routing_size (hdr p) + 1
      /\ mem (after (tl_packet_push_hop hop) p)
             (sizeof_header + payload_size (hdr p) + routing_size (hdr p))
         = uint8 hop
      /\ TL_PACKET_MAX_SIZE
         <= sizeof_header + payload_size (hdr p) + routing_size (hdr p)).
Proof.
  unfold result, after.
  destruct (N.le_gt_cases TL_PACKET_MAX_ROUTING_SIZE (routing_size (hdr p)))
    as [Hfull|Hroom].
  - pose proof (push_hop_full hop p Hfull) as H. unfold run in H. rewrite H.
    cbn [fst snd]. split; [|split].
    + split; [discriminate | lia].
    + split; [intros _; exact Hfull | reflexivity].
    + lia.
  - pose proof (push_hop_room hop p Hroom) as H. unfold run in H. rewrite H.
    cbn [fst snd hdr mem routing_size]. split; [|split].
    + split; [intros _; exact Hroom | reflexivity].
    + split; [discriminate | lia].
    + intros _ Hbig. rewrite N.eqb_refl.
      split; [reflexivity|]. split.
      * apply uint8_small. unfold TL_PACKET_MAX_ROUTING_SIZE in Hroom. lia.
      * split; [reflexivity | lia].
Qed.

Lemma push_hop_succeeds_iff_room_witness :
  routing_size (hdr oversize_packet) < TL_PACKET_MAX_ROUTING_SIZE
  /\ TL_PACKET_MAX_SIZE
       < sizeof_header + payload_size (hdr oversize_packet)
         + routing_size (hdr oversize_packet) + 1
  /\ result (tl_packet_push_hop 42) oversize_packet = 0%Z
  /\ routing_size (hdr (after (tl_packet_push_hop 42) oversize_packet)) = 8
  /\ mem (after (tl_packet_push_hop 42) oversize_packet) 516 = 42
  /\ TL_PACKET_MAX_SIZE <= 516.
Proof.
  assert (Hr : routing_size (hdr oversize_packet) < TL_PACKET_MAX_ROUTING_SIZE)
    by reflexivity.
  assert (Hb : TL_PACKET_MAX_SIZE
               < sizeof_header + payload_size (hdr oversize_packet)
                 + routing_size (hdr oversize_packet) + 1)
    by reflexivity.
  split; [exact Hr|]. split; [exact Hb|].
  exact (proj2 (proj2 (push_hop_succeeds_iff_room 42 oversize_packet)) Hr Hb).
Defined.

(** ** The path parser *)

Lemma parse_segment_byte (seg : string) (v : N) :
  parse_segment seg = Some v -> v < 256.
Proof.
  unfold parse_segment. destruct (is_empty seg); [discriminate|].
  destruct (parse_digits 0 seg) as [x|]; [|discriminate].
  destruct (N.leb_spec x 255); [|discriminate].
  intro E. injection E as <-. lia.
Qed.

Lemma parse_segment_empty : parse_segment EmptyString = None.
Proof. reflexivity. Qed.

Lemma parse_segment_too_big (seg : string) (v : N) :
  parse_digits 0 seg = Some v -> 255 < v -> parse_segment seg = None.
Proof.
  intros E Hv. unfold parse_segment. destruct (is_empty seg); [reflexivity|].
  rewrite E. destruct (N.leb_spec v 255); [lia | reflexivity].
Qed.

Lemma parse_segments_some (segs : list string) :
  forall hops : list N,
    parse_segments segs = Some hops ->
    map Some hops = map parse_segment segs
    /\ List.length hops = List.length segs
    /\ Forall (fun h => h < 256) hops.
Proof.
  induction segs as [|seg segs IH]; intros hops E; cbn in E.
  - injection E as <-. repeat split. constructor.
  - destruct (parse_segment seg) as [h|] eqn:Eseg; [|discriminate].
    destruct (parse_segments segs) as [hs|]; [|discriminate].
    injection E as <-.
    destruct (IH hs eq_refl) as (Hmap & Hlen & Hall).
    cbn. rewrite Eseg, Hmap, Hlen. repeat split.
    constructor; [exact (parse_segment_byte seg h Eseg) | exact Hall].
Qed.

Lemma parse_segments_bad (segs : list string) (seg : string) :
  In seg segs -> parse_segment seg = None -> parse_segments segs = None.
Proof.
  induction segs as [|s0 segs IH]; intros Hin Hbad; [contradiction|].
  cbn. destruct Hin as [->|Hin].
  - rewrite Hbad. reflexivity.
  - destruct (parse_segment s0); [|reflexivity].
    rewrite (IH Hin Hbad). reflexivity.
Qed.

Lemma parse_path_some (s : string) (hops : list N) :
  parse_path s = Some hops ->
  map Some hops = map parse_segment (path_segments s)
  /\ List.length hops = List.length (path_segments s)
  /\ (List.length hops <= 8)%nat
  /\ Forall (fun h => h < 256) hops.
Proof.
  unfold parse_path, TL_PACKET_MAX_ROUTING_SIZE.
  destruct (N.ltb_spec 8 (N.of_nat (List.length (path_segments s))))
    as [Hmany|Hfew]; [discriminate|].
  intro E. destruct (parse_segments_some _ _ E) as (Hmap & Hlen & Hall).
  repeat split; try assumption. lia.
Qed.

Lemma parse_path_bad_segment (s seg : string) :
  In seg (path_segments s) -> parse_segment seg = None -> parse_path s = None.
Proof.
  intros Hin Hbad. unfold parse_path.
  destruct (_ <? _); [reflexivity|].
  exact (parse_segments_bad _ _ Hin Hbad).
Qed.

(** C9: ["/3/1/"] and ["3/1"] both parse to the hops 3, 1; an empty
    segment (as in ["/3//1/"]), a value above 255 (as in ["/256/"]) and more
    than eight hops (as in ["/1/2/3/4/5/6/7/8/9/"]) make the parse fail; and
    a parse either fails, with no hops at all and -1 as the result, or
    yields one complete sequence: one byte for every segment of the path, at
    most eight of them. *)
Theorem parse_path_examples_and_atomicity :
  (parse_path "/3/1/" = Some [3; 1] /\ parse_path "3/1" = Some [3; 1])
  /\ (parse_path "/3//1/" = None
      /\ parse_path "/256/" = None
      /\ parse_path "/1/2/3/4/5/6/7/8/9/" = None)
  /\ (forall s : string,
        In EmptyString (path_segments s) -> parse_path s = None)
  /\ (forall (s seg : string) (v : N),
        In seg (path_segments s) -> parse_digits 0 seg = Some v -> 255 < v ->
        parse_path s = None)
  /\ (forall s : string,
        (8 < List.length (path_segments s))%nat -> parse_path s = None)
  /\ (forall s : string,
        (parse_path s = None /\ tl_parse_routing_result s = (-1)%Z)
        \/ (exists hops : list N,
              parse_path s = Some hops
              /\ tl_parse_routing_result s = Z.of_nat (List.length hops)
              /\ List.length hops = List.length (path_segments s)
              /\ (List.length hops <= 8)%nat
              /\ Forall (fun h => h < 256) hops)).
Proof.
  split; [split; reflexivity|].
  split; [repeat split; reflexivity|].
  split; [|split; [|split]].
  - intros s Hin.
    exact (parse_path_bad_segment s EmptyString Hin parse_segment_empty).
  - intros s seg v Hin E Hv.
    exact (parse_path_bad_segment s seg Hin (parse_segment_too_big seg v E Hv)).
  - intros s Hmany. unfold parse_path, TL_PACKET_MAX_ROUTING_SIZE.
    destruct (N.ltb_spec 8 (N.of_nat (List.length (path_segments s))));
      [reflexivity | lia].
  - intro s. unfold tl_parse_routing_result.
    destruct (parse_path s) as [hops|] eqn:E.
    + right. exists hops.
      destruct (parse_path_some s hops E) as (_ & Hlen & Hle & Hall).
      repeat split; assumption.
    + left. split; reflexivity.
Qed.

(** ** Repeated pops *)

Lemma pop_hops_S (n : nat) (p : tl_packet) :
  run (pop_hops (S n)) p
  = (result tl_packet_pop_hop p
       :: result (pop_hops n) (after tl_packet_pop_hop p),
     after (pop_hops n) (after tl_packet_pop_hop p)).
Proof.
  unfold run, result, after. cbn [pop_hops]. unfold bind, ret.
  destruct (tl_packet_pop_hop p) as [r p1]. cbn [fst snd].
  destruct (pop_hops n p1). reflexivity.
Qed.

(** * Further properties of the inline functions *)

(** ** The trailer as a list *)

Lemma header_eta (h : tl_packet_header) :
  mk_header (type h) (routing_size h) (payload_size h) = h.
Proof. destruct h. reflexivity. Qed.

Lemma trailer_length (p : tl_packet) :
  List.length (trailer p) = N.to_nat (routing_size (hdr p)).
Proof. unfold trailer. now rewrite length_map, length_seq. Qed.

Lemma trailer_ext (p q : tl_packet) :
  routing_size (hdr q) = routing_size (hdr p) ->
  payload_size (hdr q) = payload_size (hdr p) ->
  (forall o : N,
     o < sizeof_header + payload_size (hdr p) + routing_size (hdr p) ->
     mem q o = mem p o) ->
  trailer q = trailer p.
Proof.
  intros Hrs Hps Hmem. unfold trailer, result, tl_packet_routing_data, bind,
    ret, read_payload_size. cbn [fst]. rewrite Hrs, Hps.
  apply map_ext_in. intros i Hi. apply in_seq in Hi. apply Hmem. lia.
Qed.

(** A successful push puts the hop behind the last byte of the trailer. *)
Lemma push_hop_trailer (hop : N) (p : tl_packet) :
  routing_size (hdr p) < TL_PACKET_MAX_ROUTING_SIZE ->
  result (tl_packet_push_hop hop) p = 0%Z
  /\ trailer (after (tl_packet_push_hop hop) p) = trailer p ++ [uint8 hop]
  /\ routing_size (hdr (after (tl_packet_push_hop hop) p))
     = routing_size (hdr p) + 1
  /\ payload_size (hdr (after (tl_packet_push_hop hop) p))
     = payload_size (hdr p)
  /\ type (hdr (after (tl_packet_push_hop hop) p)) = type (hdr p).
Proof.
  intro Hr. pose proof (push_hop_room hop p Hr) as E. unfold run in E.
  unfold result, after. rewrite E. cbn [fst snd hdr routing_size payload_size
    type].
  unfold TL_PACKET_MAX_ROUTING_SIZE in Hr.
  assert (Hinc : uint8 (routing_size (hdr p) + 1) = routing_size (hdr p) + 1)
    by (apply uint8_small; lia).
  rewrite Hinc. split; [reflexivity|]. split; [|repeat split].
  unfold trailer, result, tl_packet_routing_data, bind, ret,
    read_payload_size.
  cbn [fst hdr mem routing_size payload_size].
  replace (N.to_nat (routing_size (hdr p) + 1))
    with (S (N.to_nat (routing_size (hdr p)))) by lia.
  rewrite seq_S, map_app. cbn [map Nat.add]. f_equal.
  - apply map_ext_in. intros i Hi. apply in_seq in Hi.
    destruct (N.eqb_spec (sizeof_header + payload_size (hdr p) + N.of_nat i)
                (sizeof_header + payload_size (hdr p) + routing_size (hdr p)));
      [lia | reflexivity].
  - rewrite N2Nat.id, N.eqb_refl. reflexivity.
Qed.

(** A pop on a non-empty trailer takes its last byte off. *)
Lemma pop_hop_trailer (p : tl_packet) :
  routing_size (hdr p) <> 0 ->
  routing_size (hdr p) < 256 ->
  exists x : N,
    result tl_packet_pop_hop p = Z.of_N x
    /\ trailer p = trailer (after tl_packet_pop_hop p) ++ [x]
    /\ routing_size (hdr (after tl_packet_pop_hop p))
       = routing_size (hdr p) - 1
    /\ payload_size (hdr (after tl_packet_pop_hop p)) = payload_size (hdr p)
    /\ type (hdr (after tl_packet_pop_hop p)) = type (hdr p)
    /\ mem (after tl_packet_pop_hop p) = mem p.
Proof.
  intros Hne Hlt. pose proof (pop_hop_nonempty p Hne) as E. unfold run in E.
  assert (Hdec : uint8 (routing_size (hdr p) + 255) = routing_size (hdr p) - 1)
    by (apply uint8_pred; lia).
  rewrite Hdec in E.
  exists (mem p (sizeof_header + payload_size (hdr p)
                 + (routing_size (hdr p) - 1))).
  unfold result, after. rewrite E.
  cbn [fst snd hdr mem routing_size payload_size type].
  split; [reflexivity|]. split; [|repeat split].
  unfold trailer, result, tl_packet_routing_data, bind, ret,
    read_payload_size.
  cbn [fst hdr mem routing_size payload_size].
  replace (N.to_nat (routing_size (hdr p)))
    with (S (N.to_nat (routing_size (hdr p) - 1))) at 1 by lia.
  rewrite seq_S, map_app. cbn [map Nat.add]. rewrite N2Nat.id. reflexivity.
Qed.

Lemma pop_hops_empty (n : nat) (p : tl_packet) :
  routing_size (hdr p) = 0 -> run (pop_hops n) p = (repeat (-1)%Z n, p).
Proof.
  intro H0. induction n as [|n IH]; [reflexivity|].
  rewrite pop_hops_S. unfold result, after.
  pose proof (pop_hop_empty p H0) as E. unfold run in E, IH. rewrite E.
  cbn [fst snd]. rewrite IH. reflexivity.
Qed.

Lemma pop_hops_app (n k : nat) :
  forall p : tl_packet,
    run (pop_hops (n + k)) p
    = (result (pop_hops n) p ++ result (pop_hops k) (after (pop_hops n) p),
       after (pop_hops k) (after (pop_hops n) p)).
Proof.
  induction n as [|n IH]; intro p.
  - unfold run, result, after. cbn. now destruct (pop_hops k p).
  - cbn [Nat.add]. rewrite pop_hops_S.
    pose proof (pop_hops_S n p) as ES. unfold run, result, after in *.
    rewrite ES, IH. reflexivity.
Qed.

(** Popping as many hops as a suffix of the trailer holds returns that
    suffix from its last byte to its first and leaves the rest. *)
Lemma pop_hops_top (top : list N) :
  forall (front : list N) (p : tl_packet),
    routing_size (hdr p) < 256 ->
    trailer p = front ++ top ->
    result (pop_hops (List.length top)) p = map Z.of_N (rev top)
    /\ trailer (after (pop_hops (List.length top)) p) = front
    /\ routing_size (hdr (after (pop_hops (List.length top)) p))
       = routing_size (hdr p) - N.of_nat (List.length top)
    /\ payload_size (hdr (after (pop_hops (List.length top)) p))
       = payload_size (hdr p)
    /\ type (hdr (after (pop_hops (List.length top)) p)) = type (hdr p)
    /\ mem (after (pop_hops (List.length top)) p) = mem p.
Proof.
  induction top as [|x top IH] using rev_ind; intros front p Hlt Htr.
  - cbn. rewrite app_nil_r in Htr. rewrite N.sub_0_r. repeat split.
    exact Htr.
  - assert (Hlen : N.to_nat (routing_size (hdr p))
                   = (List.length front + List.length top + 1)%nat).
    { rewrite <- trailer_length, Htr, !length_app. cbn. lia. }
    destruct (pop_hop_trailer p) as (y & Hres & Hsplit & Hrs & Hps & Hty & Hm);
      [lia | exact Hlt |].
    rewrite Htr, app_assoc in Hsplit.
    apply app_inj_tail in Hsplit. destruct Hsplit as [Hfront <-].
    destruct (IH front (after tl_packet_pop_hop p))
      as (IHres & IHtr & IHrs & IHps & IHty & IHm);
      [lia | now symmetry |].
    rewrite length_app, Nat.add_1_r.
    pose proof (pop_hops_S (List.length top) p) as ES. unfold run in ES.
    assert (Eres : result (pop_hops (S (List.length top))) p
                   = result tl_packet_pop_hop p
                       :: result (pop_hops (List.length top))
                            (after tl_packet_pop_hop p))
      by (unfold result at 1; rewrite ES; reflexivity).
    assert (Eaft : after (pop_hops (S (List.length top))) p
                   = after (pop_hops (List.length top))
                       (after tl_packet_pop_hop p))
      by (unfold after at 1; rewrite ES; reflexivity).
    rewrite Eres, Eaft.
    rewrite IHres, Hres, rev_unit, IHtr, IHrs, IHps, IHty, IHm, Hrs, Hps.
    repeat split; try assumption. lia.
Qed.

Lemma push_hops_cons (h : N) (hops : list N) (p : tl_packet) :
  run (push_hops (h :: hops)) p
  = (result (tl_packet_push_hop h) p
       :: result (push_hops hops) (after (tl_packet_push_hop h) p),
     after (push_hops hops) (after (tl_packet_push_hop h) p)).
Proof.
  unfold run, result, after. cbn [push_hops]. unfold bind, ret.
  destruct (tl_packet_push_hop h p) as [r p1]. cbn [fst snd].
  destruct (push_hops hops p1). reflexivity.
Qed.

Lemma push_hops_full (hops : list N) (p : tl_packet) :
  TL_PACKET_MAX_ROUTING_SIZE <= routing_size (hdr p) ->
  run (push_hops hops) p = (repeat (-1)%Z (List.length hops), p).
Proof.
  intro Hfull. induction hops as [|h hops IH]; [reflexivity|].
  rewrite push_hops_cons. unfold result, after.
  pose proof (push_hop_full h p Hfull) as E. unfold run in E, IH. rewrite E.
  cbn [fst snd]. rewrite IH. reflexivity.
Qed.

Lemma push_hops_trailer (hops : list N) :
  forall p : tl_packet,
    routing_size (hdr p) + N.of_nat (List.length hops)
      <= TL_PACKET_MAX_ROUTING_SIZE ->
    result (push_hops hops) p = repeat 0%Z (List.length hops)
    /\ trailer (after (push_hops hops) p) = trailer p ++ map uint8 hops
    /\ routing_size (hdr (after (push_hops hops) p))
       = routing_size (hdr p) + N.of_nat (List.length hops)
    /\ payload_size (hdr (after (push_hops hops) p)) = payload_size (hdr p)
    /\ type (hdr (after (push_hops hops) p)) = type (hdr p).
Proof.
  induction hops as [|h hops IH]; intros p Hfit.
  - cbn. rewrite app_nil_r, N.add_0_r. repeat split.
  - cbn [List.length] in *.
    destruct (push_hop_trailer h p) as (Hres & Htr & Hrs & Hps & Hty).
    { unfold TL_PACKET_MAX_ROUTING_SIZE in *. lia. }
    destruct (IH (after (tl_packet_push_hop h) p))
      as (IHres & IHtr & IHrs & IHps & IHty); [lia|].
    pose proof (push_hops_cons h hops p) as EC. unfold run in EC.
    assert (Eres : result (push_hops (h :: hops)) p
                   = result (tl_packet_push_hop h) p
                       :: result (push_hops hops)
                            (after (tl_packet_push_hop h) p))
      by (unfold result at 1; rewrite EC; reflexivity).
    assert (Eaft : after (push_hops (h :: hops)) p
                   = after (push_hops hops) (after (tl_packet_push_hop h) p))
      by (unfold after at 1; rewrite EC; reflexivity).
    rewrite Eres, Eaft, IHres, Hres, IHtr, Htr, IHrs, Hrs, IHps, Hps, IHty, Hty.
    rewrite <- app_assoc. cbn [map app repeat]. repeat split. lia.
Qed.

Lemma map_uint8_bytes (hops : list N) :
  Forall (fun h => h < 256) hops -> map uint8 hops = hops.
Proof.
  induction 1 as [|h hops Hh _ IH]; [reflexivity|].
  cbn. now rewrite IH, uint8_small.
Qed.

(** ** The trailer is a stack *)

(** X1: a push with room left returns 0 and appends the hop byte to the
    routing data, whose earlier bytes stay in place. *)
Theorem push_hop_appends (hop : N) (p : tl_packet) :
  routing_size (hdr p) < TL_PACKET_MAX_ROUTING_SIZE ->
  hop < 256 ->
  result (tl_packet_push_hop hop) p = 0%Z
  /\ trailer (after (tl_packet_push_hop hop) p) = trailer p ++ [hop].
Proof.
  intros Hr Hb.
  destruct (push_hop_trailer hop p Hr) as (Hres & Htr & _).
  rewrite (uint8_small hop Hb) in Htr. split; assumption.
Qed.

Lemma push_hop_appends_witness :
  routing_size (hdr sample_packet) < TL_PACKET_MAX_ROUTING_SIZE
  /\ 5 < 256
  /\ result (tl_packet_push_hop 5) sample_packet = 0%Z
  /\ trailer (after (tl_packet_push_hop 5) sample_packet) = [9; 7; 5].
Proof.
  assert (Hr : routing_size (hdr sample_packet) < TL_PACKET_MAX_ROUTING_SIZE)
    by reflexivity.
  assert (Hb : 5 < 256) by reflexivity.
  split; [exact Hr|]. split; [exact Hb|].
  exact (push_hop_appends 5 sample_packet Hr Hb).
Defined.

(** X2: on a non-empty trailer a pop returns the last byte of the routing
    data and removes exactly that byte from it.  In the header it lowers
    [routing_size] by one and leaves [type] and [payload_size] alone; behind
    the header (the payload, the trailer and what follows) it overwrites no
    byte. *)
Theorem pop_hop_takes_last (p : tl_packet) :
  routing_size (hdr p) <> 0 ->
  routing_size (hdr p) < 256 ->
  result tl_packet_pop_hop p = Z.of_N (last (trailer p) 0)
  /\ trailer (after tl_packet_pop_hop p) = removelast (trailer p)
  /\ routing_size (hdr (after tl_packet_pop_hop p)) = routing_size (hdr p) - 1
  /\ type (hdr (after tl_packet_pop_hop p)) = type (hdr p)
  /\ payload_size (hdr (after tl_packet_pop_hop p)) = payload_size (hdr p)
  /\ (forall o : N, sizeof_header <= o ->
        mem (after tl_packet_pop_hop p) o = mem p o).
Proof.
  intros Hne Hlt.
  destruct (pop_hop_trailer p Hne Hlt)
    as (x & Hres & Hsplit & Hrs & Hps & Hty & Hm).
  rewrite Hsplit, last_last, removelast_last.
  split; [exact Hres|]. split; [reflexivity|]. split; [exact Hrs|].
  split; [exact Hty|]. split; [exact Hps|].
  intros o _. now rewrite Hm.
Qed.

Lemma pop_hop_takes_last_witness :
  routing_size (hdr sample_packet) <> 0
  /\ routing_size (hdr sample_packet) < 256
  /\ result tl_packet_pop_hop sample_packet = 7%Z
  /\ trailer (after tl_packet_pop_hop sample_packet) = [9]
  /\ routing_size (hdr (after tl_packet_pop_hop sample_packet)) = 1
  /\ mem (after tl_packet_pop_hop sample_packet) 8 = 7.
Proof.
  assert (Hne : routing_size (hdr sample_packet) <> 0) by discriminate.
  assert (Hlt : routing_size (hdr sample_packet) < 256) by reflexivity.
  assert (Ho : sizeof_header <= 8) by (vm_compute; discriminate).
  pose proof (pop_hop_takes_last sample_packet Hne Hlt)
    as (Hres & Htr & Hrs & _ & _ & Hm).
  split; [exact Hne|]. split; [exact Hlt|]. split; [exact Hres|].
  split; [exact Htr|]. split; [exact Hrs | exact (Hm 8 Ho)].
Defined.

(** X3: the result of a pop is -1 exactly when [routing_size] is 0; a hop
    is never reported as -1, whatever the packet holds. *)
Theorem pop_hop_fails_iff_empty (p : tl_packet) :
  (result tl_packet_pop_hop p = (-1)%Z <-> routing_size (hdr p) = 0)
  /\ (routing_size (hdr p) <> 0 <-> (0 <= result tl_packet_pop_hop p)%Z).
Proof.
  unfold result.
  destruct (N.eq_dec (routing_size (hdr p)) 0) as [E0|Hne].
  - pose proof (pop_hop_empty p E0) as E. unfold run in E. rewrite E.
    cbn [fst]. split; split; intro H; try reflexivity; try assumption.
    + contradiction.
    + lia.
  - pose proof (pop_hop_nonempty p Hne) as E. unfold run in E. rewrite E.
    cbn [fst]. split; split; intro H; try assumption; lia.
Qed.

(** X4: popping [routing_size + k] times empties the trailer: the pops
    return the routing data from its last byte to its first, then -1 for
    each of the [k] further pops, and end with [routing_size = 0] and the
    bytes of the packet as they were. *)
Theorem pop_hops_drains (k : nat) (p : tl_packet) :
  routing_size (hdr p) < 256 ->
  result (pop_hops (N.to_nat (routing_size (hdr p)) + k)) p
  = map Z.of_N (rev (trailer p)) ++ repeat (-1)%Z k
  /\ routing_size
       (hdr (after (pop_hops (N.to_nat (routing_size (hdr p)) + k)) p)) = 0
  /\ mem (after (pop_hops (N.to_nat (routing_size (hdr p)) + k)) p) = mem p.
Proof.
  intro Hlt.
  destruct (pop_hops_top (trailer p) [] p Hlt eq_refl)
    as (Hres & _ & Hrs & _ & _ & Hm).
  rewrite trailer_length in Hres, Hrs, Hm.
  assert (H0 : routing_size
                 (hdr (after (pop_hops (N.to_nat (routing_size (hdr p)))) p))
               = 0) by (rewrite Hrs; lia).
  pose proof (pop_hops_app (N.to_nat (routing_size (hdr p))) k p) as EA.
  pose proof (pop_hops_empty k _ H0) as EE.
  unfold run in EA, EE.
  set (n := N.to_nat (routing_size (hdr p))) in *.
  set (q := after (pop_hops n) p) in *.
  assert (Eres : result (pop_hops (n + k)) p
                 = result (pop_hops n) p ++ repeat (-1)%Z k).
  { unfold result at 1. rewrite EA. cbn [fst]. unfold result at 2.
    rewrite EE. reflexivity. }
  assert (Eaft : after (pop_hops (n + k)) p = q).
  { unfold after at 1. rewrite EA. cbn [snd]. unfold after. rewrite EE.
    reflexivity. }
  rewrite Eres, Eaft, Hres. repeat split; assumption.
Qed.

Lemma pop_hops_drains_witness :
  routing_size (hdr sample_packet) < 256
  /\ result (pop_hops (2 + 2)) sample_packet = [7%Z; 9%Z; (-1)%Z; (-1)%Z]
  /\ routing_size (hdr (after (pop_hops (2 + 2)) sample_packet)) = 0.
Proof.
  assert (Hlt : routing_size (hdr sample_packet) < 256) by reflexivity.
  pose proof (pop_hops_drains 2 sample_packet Hlt) as (Hres & Hrs & _).
  split; [exact Hlt|]. split; [exact Hres | exact Hrs].
Defined.

Lemma push_hops_app (a b : list N) :
  forall p : tl_packet,
    run (push_hops (a ++ b)) p
    = (result (push_hops a) p ++ result (push_hops b) (after (push_hops a) p),
       after (push_hops b) (after (push_hops a) p)).
Proof.
  induction a as [|h a IH]; intro p.
  - unfold run, result, after. cbn. now destruct (push_hops b p).
  - cbn [app]. rewrite push_hops_cons.
    pose proof (push_hops_cons h a p) as EC. unfold run, result, after in *.
    rewrite EC, IH. reflexivity.
Qed.

(** X5: hops pushed while there is room come back in the reverse order of
    the pushes: after pushing the bytes [hops] onto a trailer that has room
    for them, as many pops return [hops] from last to first, and leave the
    header and the routing data as they were before the pushes. *)
Theorem push_hops_then_pop_hops (hops : list N) (p : tl_packet) :
  routing_size (hdr p) + N.of_nat (List.length hops)
    <= TL_PACKET_MAX_ROUTING_SIZE ->
  Forall (fun h => h < 256) hops ->
  result (pop_hops (List.length hops)) (after (push_hops hops) p)
  = map Z.of_N (rev hops)
  /\ hdr (after (pop_hops (List.length hops)) (after (push_hops hops) p))
     = hdr p
  /\ trailer (after (pop_hops (List.length hops)) (after (push_hops hops) p))
     = trailer p.
Proof.
  intros Hfit Hbytes.
  destruct (push_hops_trailer hops p Hfit) as (_ & Htr & Hrs & Hps & Hty).
  rewrite (map_uint8_bytes hops Hbytes) in Htr.
  unfold TL_PACKET_MAX_ROUTING_SIZE in Hfit.
  destruct (pop_hops_top hops (trailer p) (after (push_hops hops) p))
    as (Hres & Htr' & Hrs' & Hps' & Hty' & _); [lia | exact Htr |].
  split; [exact Hres|]. split; [|exact Htr'].
  rewrite <- (header_eta (hdr p)), <- (header_eta (hdr (after _ _))).
  rewrite Hty', Hps', Hrs', Hty, Hps, Hrs. f_equal. lia.
Qed.

Lemma push_hops_then_pop_hops_witness :
  routing_size (hdr sample_packet) + N.of_nat (List.length [21; 22; 23])
    <= TL_PACKET_MAX_ROUTING_SIZE
  /\ Forall (fun h => h < 256) [21; 22; 23]
  /\ result (pop_hops 3) (after (push_hops [21; 22; 23]) sample_packet)
     = [23%Z; 22%Z; 21%Z]
  /\ trailer (after (pop_hops 3) (after (push_hops [21; 22; 23]) sample_packet))
     = [9; 7].
Proof.
  assert (Hfit : routing_size (hdr sample_packet)
                 + N.of_nat (List.length [21; 22; 23])
                 <= TL_PACKET_MAX_ROUTING_SIZE) by (vm_compute; discriminate).
  assert (Hb : Forall (fun h => h < 256) [21; 22; 23])
    by (repeat constructor).
  pose proof (push_hops_then_pop_hops [21; 22; 23] sample_packet Hfit Hb)
    as (Hres & _ & Htr).
  split; [exact Hfit|]. split; [exact Hb|]. split; [exact Hres | exact Htr].
Defined.

(** X6: pushes that fill the trailer succeed and every push after them is
    refused without effect: when [hops] takes the trailer to exactly eight
    bytes, pushing [hops] and then [more] returns 0 for each of [hops], -1
    for each of [more], and leaves the packet as the pushes of [hops] alone
    leave it. *)
Theorem push_hops_stop_at_capacity (hops more : list N) (p : tl_packet) :
  routing_size (hdr p) + N.of_nat (List.length hops)
    = TL_PACKET_MAX_ROUTING_SIZE ->
  run (push_hops (hops ++ more)) p
  = (repeat 0%Z (List.length hops) ++ repeat (-1)%Z (List.length more),
     after (push_hops hops) p).
Proof.
  intro Hfill.
  destruct (push_hops_trailer hops p) as (Hres & _ & Hrs & _); [lia|].
  rewrite push_hops_app.
  assert (Hfull : TL_PACKET_MAX_ROUTING_SIZE
                  <= routing_size (hdr (after (push_hops hops) p)))
    by (rewrite Hrs; lia).
  pose proof (push_hops_full more _ Hfull) as E. unfold run in E.
  set (q := after (push_hops hops) p) in *.
  assert (Eres : result (push_hops more) q
                 = repeat (-1)%Z (List.length more))
    by (unfold result; rewrite E; reflexivity).
  assert (Eaft : after (push_hops more) q = q)
    by (unfold after at 1; rewrite E; reflexivity).
  rewrite Eres, Eaft, Hres. reflexivity.
Qed.

Lemma push_hops_stop_at_capacity_witness :
  routing_size (hdr sample_packet)
    + N.of_nat (List.length [1; 2; 3; 4; 5; 6])
    = TL_PACKET_MAX_ROUTING_SIZE
  /\ run (push_hops ([1; 2; 3; 4; 5; 6] ++ [7; 8])) sample_packet
     = ([0; 0; 0; 0; 0; 0; -1; -1]%Z,
        after (push_hops [1; 2; 3; 4; 5; 6]) sample_packet).
Proof.
  assert (H : routing_size (hdr sample_packet)
              + N.of_nat (List.length [1; 2; 3; 4; 5; 6])
              = TL_PACKET_MAX_ROUTING_SIZE) by reflexivity.
  split; [exact H|].
  exact (push_hops_stop_at_capacity [1; 2; 3; 4; 5; 6] [7; 8] sample_packet H).
Defined.

(** X7: a pop leaves the popped byte in place, so pushing the popped hop
    back restores the packet: on a trailer of one to eight bytes whose last
    cell holds a byte, a pop followed by a push of its result returns 0 and
    gives back the header and every byte of the packet. *)
Theorem pop_then_push_restores (p : tl_packet) :
  routing_size (hdr p) <> 0 ->
  routing_size (hdr p) <= TL_PACKET_MAX_ROUTING_SIZE ->
  last (trailer p) 0 < 256 ->
  result (tl_packet_push_hop (Z.to_N (result tl_packet_pop_hop p)))
         (after tl_packet_pop_hop p) = 0%Z
  /\ hdr (after (tl_packet_push_hop (Z.to_N (result tl_packet_pop_hop p)))
                (after tl_packet_pop_hop p)) = hdr p
  /\ forall o : N,
       mem (after (tl_packet_push_hop (Z.to_N (result tl_packet_pop_hop p)))
                  (after tl_packet_pop_hop p)) o = mem p o.
Proof.
  unfold TL_PACKET_MAX_ROUTING_SIZE. intros Hne Hle Hbyte.
  destruct (pop_hop_trailer p Hne) as (x & Hres & Hsplit & _); [lia|].
  rewrite Hsplit, last_last in Hbyte.
  pose proof (pop_hop_nonempty p Hne) as E. unfold run in E.
  assert (Hdec : uint8 (routing_size (hdr p) + 255) = routing_size (hdr p) - 1)
    by (apply uint8_pred; lia).
  rewrite Hdec in E.
  assert (Hx : x = mem p (sizeof_header + payload_size (hdr p)
                          + (routing_size (hdr p) - 1))).
  { apply N2Z.inj. rewrite <- Hres. unfold result. rewrite E. reflexivity. }
  rewrite Hres, N2Z.id.
  set (p1 := after tl_packet_pop_hop p).
  assert (Hp1 : p1 = mk_packet
                       (mk_header (type (hdr p)) (routing_size (hdr p) - 1)
                                  (payload_size (hdr p)))
                       (mem p))
    by (subst p1; unfold after; rewrite E; reflexivity).
  assert (Hroom : routing_size (hdr p1) < TL_PACKET_MAX_ROUTING_SIZE)
    by (rewrite Hp1; unfold TL_PACKET_MAX_ROUTING_SIZE; cbn; lia).
  pose proof (push_hop_room x p1 Hroom) as EP. unfold run in EP.
  unfold result, after. rewrite EP. cbn [fst snd hdr mem].
  rewrite Hp1. cbn [hdr mem type routing_size payload_size].
  replace (routing_size (hdr p) - 1 + 1) with (routing_size (hdr p)) by lia.
  rewrite (uint8_small (routing_size (hdr p))) by lia.
  split; [reflexivity|]. split; [apply header_eta|].
  intro o.
  destruct (N.eqb_spec o (sizeof_header + payload_size (hdr p)
                          + (routing_size (hdr p) - 1))) as [->|_];
    [|reflexivity].
  rewrite (uint8_small x Hbyte). exact Hx.
Qed.

Lemma pop_then_push_restores_witness :
  routing_size (hdr sample_packet) <> 0
  /\ routing_size (hdr sample_packet) <= TL_PACKET_MAX_ROUTING_SIZE
  /\ last (trailer sample_packet) 0 < 256
  /\ result (tl_packet_push_hop 7) (after tl_packet_pop_hop sample_packet)
     = 0%Z
  /\ hdr (after (tl_packet_push_hop 7) (after tl_packet_pop_hop sample_packet))
     = hdr sample_packet.
Proof.
  assert (Hne : routing_size (hdr sample_packet) <> 0) by discriminate.
  assert (Hle : routing_size (hdr sample_packet) <= TL_PACKET_MAX_ROUTING_SIZE)
    by (vm_compute; discriminate).
  assert (Hb : last (trailer sample_packet) 0 < 256) by reflexivity.
  pose proof (pop_then_push_restores sample_packet Hne Hle Hb) as (H1 & H2 & _).
  split; [exact Hne|]. split; [exact Hle|]. split; [exact Hb|].
  split; [exact H1 | exact H2].
Defined.

(** ** Valid headers and the extent of the structure *)

Lemma valid_header_bounds (h : tl_packet_header) :
  valid_header h ->
  type h < 256 /\ routing_size h <= 8 /\ payload_size h <= 500.
Proof.
  unfold valid_header, TL_PACKET_MAX_PAYLOAD_SIZE, TL_PACKET_MAX_SIZE,
    TL_PACKET_MAX_ROUTING_SIZE, sizeof_header. cbn. tauto.
Qed.

(** X8: pushes and pops keep a valid header valid and stay inside
    [struct tl_packet]: after either call the header is still within
    capacity ([routing_size] is the one header field they rewrite); behind
    the header the only byte a push can change lies in the routing data,
    before the end of the structure, and the byte a pop returns is read
    between the start of [payload] and the end of the structure; the
    structure is [TL_PACKET_MAX_SIZE] bytes. *)
Theorem hop_operations_stay_in_packet (hop : N) (p : tl_packet) :
  valid_header (hdr p) ->
  valid_header (hdr (after (tl_packet_push_hop hop) p))
  /\ valid_header (hdr (after tl_packet_pop_hop p))
  /\ type (hdr (after (tl_packet_push_hop hop) p)) = type (hdr p)
  /\ payload_size (hdr (after (tl_packet_push_hop hop) p))
     = payload_size (hdr p)
  /\ (forall o : N,
        sizeof_header <= o ->
        mem (after (tl_packet_push_hop hop) p) o <> mem p o ->
        result tl_packet_routing_data p <= o < sizeof_packet)
  /\ (routing_size (hdr p) <> 0 ->
      exists o : N,
        offsetof_payload <= o < sizeof_packet
        /\ result tl_packet_pop_hop p = Z.of_N (mem p o))
  /\ sizeof_packet = TL_PACKET_MAX_SIZE.
Proof.
  intro Hv. pose proof (valid_header_bounds _ Hv) as (Ht & Hr & Hp).
  unfold valid_header, offsetof_payload, sizeof_packet,
    offsetof_routing_reserved, offsetof_payload, TL_PACKET_MAX_PAYLOAD_SIZE,
    TL_PACKET_MAX_SIZE, TL_PACKET_MAX_ROUTING_SIZE, sizeof_header.
  change (512 - (1 + 1 + 2) - 8) with 500.
  change (1 + 1 + 2 + 500 + 8) with 512. change (1 + 1 + 2) with 4.
  change (result tl_packet_routing_data p)
    with (1 + 1 + 2 + payload_size (hdr p)).
  assert (Hfr : type (hdr (after (tl_packet_push_hop hop) p)) = type (hdr p)
                /\ payload_size (hdr (after (tl_packet_push_hop hop) p))
                   = payload_size (hdr p)).
  { unfold after.
    destruct (N.le_gt_cases TL_PACKET_MAX_ROUTING_SIZE (routing_size (hdr p)))
      as [Hfull|Hroom].
    - pose proof (push_hop_full hop p Hfull) as E. unfold run in E.
      rewrite E. split; reflexivity.
    - pose proof (push_hop_room hop p Hroom) as E. unfold run in E.
      rewrite E. split; reflexivity. }
  destruct Hfr as [Hfty Hfps].
  split; [|split; [|split; [exact Hfty|split; [exact Hfps|
    split; [|split; [|reflexivity]]]]]].
  - unfold after.
    destruct (N.le_gt_cases TL_PACKET_MAX_ROUTING_SIZE (routing_size (hdr p)))
      as [Hfull|Hroom].
    + pose proof (push_hop_full hop p Hfull) as E. unfold run in E.
      rewrite E. cbn [snd]. repeat split; assumption.
    + pose proof (push_hop_room hop p Hroom) as E. unfold run in E.
      rewrite E. cbn [snd hdr type routing_size payload_size].
      unfold TL_PACKET_MAX_ROUTING_SIZE in Hroom.
      rewrite uint8_small by lia. repeat split; [assumption | lia | assumption].
  - unfold after.
    destruct (N.eq_dec (routing_size (hdr p)) 0) as [E0|Hne].
    + pose proof (pop_hop_empty p E0) as E. unfold run in E.
      rewrite E. cbn [snd]. repeat split; assumption.
    + pose proof (pop_hop_nonempty p Hne) as E. unfold run in E.
      rewrite E. cbn [snd hdr type routing_size payload_size].
      rewrite uint8_pred by lia. repeat split; [assumption | lia | assumption].
  - intros o _ Ho. unfold after in Ho.
    destruct (N.le_gt_cases TL_PACKET_MAX_ROUTING_SIZE (routing_size (hdr p)))
      as [Hfull|Hroom].
    + pose proof (push_hop_full hop p Hfull) as E. unfold run in E.
      rewrite E in Ho. now elim Ho.
    + pose proof (push_hop_room hop p Hroom) as E. unfold run in E.
      rewrite E in Ho. cbn [snd mem] in Ho.
      unfold TL_PACKET_MAX_ROUTING_SIZE, sizeof_header in *.
      destruct (N.eqb_spec o (1 + 1 + 2 + payload_size (hdr p)
                              + routing_size (hdr p))); [lia | now elim Ho].
  - intro Hne. pose proof (pop_hop_nonempty p Hne) as E. unfold run in E.
    exists (sizeof_header + payload_size (hdr p)
            + uint8 (routing_size (hdr p) + 255)).
    unfold result. rewrite E. cbn [fst]. split; [|reflexivity].
    rewrite uint8_pred by lia. unfold sizeof_header. lia.
Qed.

Lemma hop_operations_stay_in_packet_witness :
  valid_header (hdr sample_packet)
  /\ valid_header (hdr (after (tl_packet_push_hop 5) sample_packet))
  /\ valid_header (hdr (after tl_packet_pop_hop sample_packet))
  /\ (sizeof_header <= 9
      /\ mem (after (tl_packet_push_hop 5) sample_packet) 9
         <> mem sample_packet 9
      /\ result tl_packet_routing_data sample_packet <= 9 < sizeof_packet)
  /\ sizeof_packet = TL_PACKET_MAX_SIZE.
Proof.
  assert (Hv : valid_header (hdr sample_packet))
    by (repeat split; vm_compute; discriminate).
  assert (Ho : sizeof_header <= 9) by (vm_compute; discriminate).
  assert (Hne : mem (after (tl_packet_push_hop 5) sample_packet) 9
                <> mem sample_packet 9) by (vm_compute; discriminate).
  pose proof (hop_operations_stay_in_packet 5 sample_packet Hv)
    as (H1 & H2 & _ & _ & Hin & _ & H5).
  split; [exact Hv|]. split; [exact H1|]. split; [exact H2|].
  split; [|exact H5].
  split; [exact Ho|]. split; [exact Hne | exact (Hin 9 Ho Hne)].
Defined.

(** X9: the regions of a valid packet lie end to end and the top of the hop
    stack is the end of the packet: the payload ends where the routing data
    begins, the routing data ends at the total size, a successful push
    stores its hop at the offset of the old total size and makes the total
    size one larger, and a successful pop makes it one smaller and returns
    the byte at the offset of the new total size. *)
Theorem hop_stack_top_is_packet_end (w hop : N) (p : tl_packet) :
  16 <= w ->
  valid_header (hdr p) ->
  result tl_packet_payload_data p + payload_size (hdr p)
  = result tl_packet_routing_data p
  /\ result tl_packet_routing_data p + routing_size (hdr p)
     = result (tl_packet_total_size w) p
  /\ (routing_size (hdr p) < TL_PACKET_MAX_ROUTING_SIZE ->
      result (tl_packet_total_size w) (after (tl_packet_push_hop hop) p)
      = result (tl_packet_total_size w) p + 1
      /\ mem (after (tl_packet_push_hop hop) p)
             (result (tl_packet_total_size w) p) = uint8 hop)
  /\ (routing_size (hdr p) <> 0 ->
      result (tl_packet_total_size w) (after tl_packet_pop_hop p) + 1
      = result (tl_packet_total_size w) p
      /\ result tl_packet_pop_hop p
         = Z.of_N (mem p (result (tl_packet_total_size w)
                            (after tl_packet_pop_hop p)))).
Proof.
  intros Hw Hv. pose proof (valid_header_bounds _ Hv) as (Ht & Hr & Hp).
  assert (Htot : forall q : tl_packet,
            routing_size (hdr q) <= 8 -> payload_size (hdr q) <= 500 ->
            result (tl_packet_total_size w) q
            = sizeof_header + payload_size (hdr q) + routing_size (hdr q)).
  { intros q Hqr Hqp. unfold_packet. cbn [fst].
    apply size_t_small; [exact Hw | unfold sizeof_header; lia]. }
  rewrite (Htot p Hr Hp).
  split; [reflexivity|]. split; [reflexivity|]. split.
  - intro Hroom. pose proof (push_hop_room hop p Hroom) as E. unfold run in E.
    unfold TL_PACKET_MAX_ROUTING_SIZE in Hroom.
    assert (Hinc : uint8 (routing_size (hdr p) + 1) = routing_size (hdr p) + 1)
      by (apply uint8_small; lia).
    set (p1 := after (tl_packet_push_hop hop) p).
    assert (Hp1 : p1 = mk_packet
                         (mk_header (type (hdr p)) (routing_size (hdr p) + 1)
                                    (payload_size (hdr p)))
                         (fun o =>
                            if o =? sizeof_header + payload_size (hdr p)
                                    + routing_size (hdr p)
                            then uint8 hop else mem p o))
      by (subst p1; unfold after; rewrite E, Hinc; reflexivity).
    rewrite (Htot p1) by (rewrite Hp1; cbn; lia).
    rewrite Hp1. cbn [hdr mem routing_size payload_size].
    split; [lia|]. now rewrite N.eqb_refl.
  - intro Hne. pose proof (pop_hop_nonempty p Hne) as E. unfold run in E.
    assert (Hdec : uint8 (routing_size (hdr p) + 255)
                   = routing_size (hdr p) - 1) by (apply uint8_pred; lia).
    rewrite Hdec in E.
    set (p1 := after tl_packet_pop_hop p).
    assert (Hp1 : p1 = mk_packet
                         (mk_header (type (hdr p)) (routing_size (hdr p) - 1)
                                    (payload_size (hdr p)))
                         (mem p))
      by (subst p1; unfold after; rewrite E; reflexivity).
    rewrite (Htot p1) by (rewrite Hp1; cbn; lia).
    rewrite Hp1. cbn [hdr mem routing_size payload_size].
    split; [lia|]. unfold result. rewrite E. reflexivity.
Qed.

Lemma hop_stack_top_is_packet_end_witness :
  16 <= 32
  /\ valid_header (hdr sample_packet)
  /\ result (tl_packet_total_size 32) sample_packet = 9
  /\ mem (after (tl_packet_push_hop 5) sample_packet) 9 = 5
  /\ result (tl_packet_total_size 32) (after (tl_packet_push_hop 5) sample_packet)
     = 10
  /\ result (tl_packet_total_size 32) (after tl_packet_pop_hop sample_packet) + 1
     = 9.
Proof.
  assert (Hw : 16 <= 32) by (vm_compute; discriminate).
  assert (Hv : valid_header (hdr sample_packet))
    by (repeat split; vm_compute; discriminate).
  assert (Hroom : routing_size (hdr sample_packet) < TL_PACKET_MAX_ROUTING_SIZE)
    by reflexivity.
  assert (Hne : routing_size (hdr sample_packet) <> 0) by discriminate.
  pose proof (hop_stack_top_is_packet_end 32 5 sample_packet Hw Hv)
    as (_ & H2 & Hpush & Hpop).
  split; [exact Hw|]. split; [exact Hv|]. split; [symmetry; exact H2|].
  split; [exact (proj2 (Hpush Hroom))|].
  split; [exact (proj1 (Hpush Hroom)) | exact (proj1 (Hpop Hne))].
Defined.

(** ** Headers beyond capacity *)

(** X10: [tl_packet_total_size] checks nothing.  For any header (an 8-bit
    [routing_size], a 16-bit [payload_size]) a [size_t] of 17 bits or more
    gives the plain sum, which is above [TL_PACKET_MAX_SIZE] as soon as
    [payload_size + routing_size] is above 508; a 16-bit [size_t] wraps when
    the sum reaches 65536, and the value returned is then smaller than the
    payload size alone. *)
Theorem total_size_of_any_header (w : N) (p : tl_packet) :
  routing_size (hdr p) < 256 ->
  payload_size (hdr p) < 65536 ->
  (17 <= w ->
   result (tl_packet_total_size w) p
   = sizeof_header + payload_size (hdr p) + routing_size (hdr p)
   /\ (TL_PACKET_MAX_SIZE < result (tl_packet_total_size w) p
       <-> 508 < payload_size (hdr p) + routing_size (hdr p)))
  /\ (65536 <= sizeof_header + payload_size (hdr p) + routing_size (hdr p) ->
      result (tl_packet_total_size 16) p + 65536
      = sizeof_header + payload_size (hdr p) + routing_size (hdr p)
      /\ result (tl_packet_total_size 16) p < payload_size (hdr p)).
Proof.
  intros Hr Hp. unfold_packet. cbn [fst]. unfold size_t, sizeof_header,
    TL_PACKET_MAX_SIZE. split.
  - intro Hw.
    assert (E : (1 + 1 + 2 + payload_size (hdr p) + routing_size (hdr p))
                  mod 2 ^ w
                = 1 + 1 + 2 + payload_size (hdr p) + routing_size (hdr p)).
    { apply N.mod_small. apply N.lt_le_trans with (2 ^ 17).
      - change (2 ^ 17) with 131072. lia.
      - apply N.pow_le_mono_r; [discriminate | exact Hw]. }
    rewrite E. split; [reflexivity | lia].
  - intro Hbig. change (2 ^ 16) with 65536.
    assert (E : (1 + 1 + 2 + payload_size (hdr p) + routing_size (hdr p))
                  mod 65536
                = 1 + 1 + 2 + payload_size (hdr p) + routing_size (hdr p)
                  - 65536).
    { symmetry. apply (N.mod_unique _ _ 1); lia. }
    rewrite E. lia.
Qed.

Lemma total_size_of_any_header_witness :
  routing_size (hdr huge_packet) < 256
  /\ payload_size (hdr huge_packet) < 65536
  /\ 17 <= 32
  /\ result (tl_packet_total_size 32) huge_packet = 65794
  /\ 65536 <= sizeof_header + payload_size (hdr huge_packet)
              + routing_size (hdr huge_packet)
  /\ result (tl_packet_total_size 16) huge_packet + 65536 = 65794.
Proof.
  assert (Hr : routing_size (hdr huge_packet) < 256) by reflexivity.
  assert (Hp : payload_size (hdr huge_packet) < 65536) by reflexivity.
  assert (Hw : 17 <= 32) by (vm_compute; discriminate).
  assert (Hb : 65536 <= sizeof_header + payload_size (hdr huge_packet)
                        + routing_size (hdr huge_packet))
    by (vm_compute; discriminate).
  pose proof (total_size_of_any_header 32 huge_packet Hr Hp) as (H17 & H16).
  split; [exact Hr|]. split; [exact Hp|]. split; [exact Hw|].
  split; [exact (proj1 (H17 Hw))|]. split; [exact Hb|].
  exact (proj1 (H16 Hb)).
Defined.

(** ** Stream identifiers and packet types *)

(** X11: [tl_packet_stream_id] undoes [TL_PTYPE_STREAM].  For an 8-bit type
    the result lies between -1 and 127; when it is not negative,
    [TL_PTYPE_STREAM] of it is the type of the packet; it is -1 exactly for
    the types below [TL_PTYPE_STREAM0], among them all the named packet
    types. *)
Theorem stream_id_inverts_stream_type (p : tl_packet) :
  type (hdr p) < 256 ->
  (-1 <= result tl_packet_stream_id p <= 127)%Z
  /\ ((0 <= result tl_packet_stream_id p)%Z ->
      TL_PTYPE_STREAM (Z.to_N (result tl_packet_stream_id p)) = type (hdr p))
  /\ (result tl_packet_stream_id p = (-1)%Z
      <-> type (hdr p) < TL_PTYPE_STREAM0)
  /\ (In (type (hdr p))
         [TL_PTYPE_INVALID; TL_PTYPE_LOG; TL_PTYPE_RPC_REQ; TL_PTYPE_RPC_REP;
          TL_PTYPE_RPC_ERROR; TL_PTYPE_STREAMDESC; TL_PTYPE_USER] ->
      result tl_packet_stream_id p = (-1)%Z).
Proof.
  intro Ht. unfold_packet. cbn [fst].
  unfold TL_PTYPE_STREAM, TL_PTYPE_STREAM0, TL_PTYPE_INVALID, TL_PTYPE_LOG,
    TL_PTYPE_RPC_REQ, TL_PTYPE_RPC_REP, TL_PTYPE_RPC_ERROR,
    TL_PTYPE_STREAMDESC, TL_PTYPE_USER.
  destruct (N.leb_spec 128 (type (hdr p))) as [Hs|Hs].
  - split; [lia|]. split; [intros _; lia|]. split; [split; lia|].
    cbn [In]. intros [H|[H|[H|[H|[H|[H|[H|[]]]]]]]]; lia.
  - split; [lia|]. split; [lia|]. split; [split; [intros _; exact Hs|]|];
      reflexivity.
Qed.

Lemma stream_id_inverts_stream_type_witness :
  type (hdr stream5_packet) < 256
  /\ (0 <= result tl_packet_stream_id stream5_packet)%Z
  /\ TL_PTYPE_STREAM (Z.to_N (result tl_packet_stream_id stream5_packet)) = 133
  /\ type (hdr sample_packet) < 256
  /\ result tl_packet_stream_id sample_packet = (-1)%Z.
Proof.
  assert (Ht : type (hdr stream5_packet) < 256) by reflexivity.
  assert (Hs : (0 <= result tl_packet_stream_id stream5_packet)%Z)
    by (vm_compute; discriminate).
  assert (Hl : type (hdr sample_packet) < 256) by reflexivity.
  split; [exact Ht|]. split; [exact Hs|].
  split;
    [exact (proj1 (proj2 (stream_id_inverts_stream_type stream5_packet Ht)) Hs)|].
  split; [exact Hl|].
  apply (proj2 (proj2 (proj2 (stream_id_inverts_stream_type sample_packet Hl)))).
  right. left. reflexivity.
Defined.

(** ** The C++ member functions *)

(** Under C++ every member function of [tl_packet_header] returns what the
    C function of the same name returns and, like it, leaves the packet as
    it was; the members [payload_data] and [routing_data], which repeat the
    pointer arithmetic instead of calling the C functions, make no
    exception. *)
Lemma cxx_members_agree (w : N) (p : tl_packet) :
  run (Cxx.total_size w) p = run (tl_packet_total_size w) p
  /\ run Cxx.payload_data p = run tl_packet_payload_data p
  /\ run Cxx.routing_data p = run tl_packet_routing_data p
  /\ run Cxx.stream_id p = run tl_packet_stream_id p
  /\ after (Cxx.total_size w) p = p
  /\ after Cxx.payload_data p = p
  /\ after Cxx.routing_data p = p
  /\ after Cxx.stream_id p = p.
Proof. repeat split. Qed.

(** ** Any sequence of pushes and pops *)

Lemma do_ops_cons (op : hop_op) (ops : list hop_op) (p : tl_packet) :
  run (do_ops (op :: ops)) p
  = (result (do_op op) p :: result (do_ops ops) (after (do_op op) p),
     after (do_ops ops) (after (do_op op) p)).
Proof.
  unfold run, result, after. cbn [do_ops]. unfold bind, ret.
  destruct (do_op op p) as [r p1]. cbn [fst snd].
  destruct (do_ops ops p1). reflexivity.
Qed.

Lemma do_op_frame (op : hop_op) (p : tl_packet) :
  type (hdr (after (do_op op) p)) = type (hdr p)
  /\ payload_size (hdr (after (do_op op) p)) = payload_size (hdr p)
  /\ (forall o : N, o < sizeof_header + payload_size (hdr p) ->
        mem (after (do_op op) p) o = mem p o)
  /\ (routing_size (hdr p) <= TL_PACKET_MAX_ROUTING_SIZE ->
      routing_size (hdr (after (do_op op) p)) <= TL_PACKET_MAX_ROUTING_SIZE).
Proof.
  unfold after. destruct op as [hop|]; cbn [do_op].
  - destruct (N.le_gt_cases TL_PACKET_MAX_ROUTING_SIZE (routing_size (hdr p)))
      as [Hfull|Hroom].
    + pose proof (push_hop_full hop p Hfull) as E. unfold run in E.
      rewrite E. cbn [snd]. repeat split; auto.
    + pose proof (push_hop_room hop p Hroom) as E. unfold run in E.
      rewrite E. cbn [snd hdr mem type routing_size payload_size].
      unfold TL_PACKET_MAX_ROUTING_SIZE in *.
      split; [reflexivity|]. split; [reflexivity|]. split.
      * intros o Ho.
        destruct (N.eqb_spec o (sizeof_header + payload_size (hdr p)
                                + routing_size (hdr p))); [lia | reflexivity].
      * intros _. rewrite uint8_small; lia.
  - destruct (N.eq_dec (routing_size (hdr p)) 0) as [E0|Hne].
    + pose proof (pop_hop_empty p E0) as E. unfold run in E.
      rewrite E. cbn [snd]. repeat split; auto.
    + pose proof (pop_hop_nonempty p Hne) as E. unfold run in E.
      rewrite E. cbn [snd hdr mem type routing_size payload_size].
      unfold TL_PACKET_MAX_ROUTING_SIZE.
      repeat split. intro Hle. rewrite uint8_pred; lia.
Qed.

(** X12: no sequence of pushes and pops, however long and in whatever
    order, changes the type, the payload size or a byte of the payload (the
    bytes from [tl_packet_payload_data] up to [tl_packet_routing_data]);
    [routing_size] is the one header field they rewrite, and no sequence
    takes it from at most eight to more than eight. *)
Theorem hop_sequences_keep_payload (ops : list hop_op) (p : tl_packet) :
  type (hdr (after (do_ops ops) p)) = type (hdr p)
  /\ payload_size (hdr (after (do_ops ops) p)) = payload_size (hdr p)
  /\ (forall o : N,
        result tl_packet_payload_data p <= o
          < result tl_packet_routing_data p ->
        mem (after (do_ops ops) p) o = mem p o)
  /\ (routing_size (hdr p) <= TL_PACKET_MAX_ROUTING_SIZE ->
      routing_size (hdr (after (do_ops ops) p)) <= TL_PACKET_MAX_ROUTING_SIZE).
Proof.
  change (result tl_packet_routing_data p)
    with (sizeof_header + payload_size (hdr p)).
  change (result tl_packet_payload_data p) with sizeof_header.
  revert p. induction ops as [|op ops IH]; intro p.
  - cbn. repeat split; auto.
  - pose proof (do_ops_cons op ops p) as EC. unfold run in EC.
    assert (Eaft : after (do_ops (op :: ops)) p
                   = after (do_ops ops) (after (do_op op) p))
      by (unfold after at 1; rewrite EC; reflexivity).
    rewrite Eaft.
    destruct (do_op_frame op p) as (Hty & Hps & Hmem & Hrs).
    destruct (IH (after (do_op op) p)) as (IHty & IHps & IHmem & IHrs).
    rewrite IHty, IHps, Hty, Hps. split; [reflexivity|].
    split; [reflexivity|]. split.
    + intros o Ho. rewrite IHmem by (rewrite Hps; exact Ho).
      apply Hmem. lia.
    + intro Hle. apply IHrs, Hrs, Hle.
Qed.

Lemma hop_sequences_keep_payload_witness :
  routing_size (hdr sample_packet) <= TL_PACKET_MAX_ROUTING_SIZE
  /\ result tl_packet_payload_data sample_packet <= 5
       < result tl_packet_routing_data sample_packet
  /\ mem (after (do_ops [Pop; Push 1; Push 2; Pop; Pop; Pop; Push 3])
                sample_packet) 5 = 105
  /\ routing_size
       (hdr (after (do_ops [Pop; Push 1; Push 2; Pop; Pop; Pop; Push 3])
                   sample_packet)) <= TL_PACKET_MAX_ROUTING_SIZE.
Proof.
  assert (Hle : routing_size (hdr sample_packet) <= TL_PACKET_MAX_ROUTING_SIZE)
    by (vm_compute; discriminate).
  assert (Ho : result tl_packet_payload_data sample_packet <= 5
               < result tl_packet_routing_data sample_packet)
    by (split; vm_compute; [discriminate | reflexivity]).
  pose proof (hop_sequences_keep_payload
                [Pop; Push 1; Push 2; Pop; Pop; Pop; Push 3] sample_packet)
    as (_ & _ & Hmem & Hrs).
  split; [exact Hle|]. split; [exact Ho|].
  split; [exact (Hmem 5 Ho) | exact (Hrs Hle)].
Defined.

Lemma do_op_stack (op : hop_op) (p : tl_packet) :
  routing_size (hdr p) <= TL_PACKET_MAX_ROUTING_SIZE ->
  (result (do_op op) p, trailer (after (do_op op) p))
  = stack_step (trailer p) op.
Proof.
  intro Hle. unfold stack_step. rewrite trailer_length, N2Nat.id.
  destruct op as [hop|]; cbn [do_op].
  - destruct (N.leb_spec TL_PACKET_MAX_ROUTING_SIZE (routing_size (hdr p)))
      as [Hfull|Hroom].
    + pose proof (push_hop_full hop p Hfull) as E. unfold run in E.
      unfold result, after. rewrite E. reflexivity.
    + destruct (push_hop_trailer hop p Hroom) as (Hres & Htr & _).
      rewrite Hres, Htr. reflexivity.
  - destruct (N.eq_dec (routing_size (hdr p)) 0) as [E0|Hne].
    + pose proof (pop_hop_empty p E0) as E. unfold run in E.
      unfold result, after. rewrite E. cbn [fst snd].
      assert (Hnil : trailer p = []).
      { apply length_zero_iff_nil. rewrite trailer_length, E0. reflexivity. }
      rewrite Hnil. reflexivity.
    + unfold TL_PACKET_MAX_ROUTING_SIZE in Hle.
      destruct (pop_hop_trailer p Hne) as (x & Hres & Hsplit & _); [lia|].
      rewrite Hsplit, rev_unit, removelast_last, Hres.
      reflexivity.
Qed.

(** X13: on a packet with at most eight hops the routing data behaves as a
    stack of capacity eight: for every sequence of pushes and pops the
    values returned and the routing data left behind are those of the
    reference stack started from the routing data of the packet. *)
Theorem trailer_refines_bounded_stack (ops : list hop_op) (p : tl_packet) :
  routing_size (hdr p) <= TL_PACKET_MAX_ROUTING_SIZE ->
  (result (do_ops ops) p, trailer (after (do_ops ops) p))
  = stack_run ops (trailer p).
Proof.
  revert p. induction ops as [|op ops IH]; intros p Hle; [reflexivity|].
  pose proof (do_ops_cons op ops p) as EC. unfold run in EC.
  assert (Eres : result (do_ops (op :: ops)) p
                 = result (do_op op) p
                     :: result (do_ops ops) (after (do_op op) p))
    by (unfold result at 1; rewrite EC; reflexivity).
  assert (Eaft : after (do_ops (op :: ops)) p
                 = after (do_ops ops) (after (do_op op) p))
    by (unfold after at 1; rewrite EC; reflexivity).
  rewrite Eres, Eaft. cbn [stack_run].
  rewrite <- (do_op_stack op p Hle).
  destruct (do_op_frame op p) as (_ & _ & _ & Hrs).
  rewrite <- (IH (after (do_op op) p) (Hrs Hle)). reflexivity.
Qed.

Lemma trailer_refines_bounded_stack_witness :
  routing_size (hdr sample_packet) <= TL_PACKET_MAX_ROUTING_SIZE
  /\ (result (do_ops [Pop; Push 1; Push 2; Pop; Pop; Pop; Pop; Push 3])
             sample_packet,
      trailer (after (do_ops [Pop; Push 1; Push 2; Pop; Pop; Pop; Pop; Push 3])
                     sample_packet))
     = ([7; 0; 0; 2; 1; 9; -1; 0]%Z, [3]).
Proof.
  assert (Hle : routing_size (hdr sample_packet) <= TL_PACKET_MAX_ROUTING_SIZE)
    by (vm_compute; discriminate).
  split; [exact Hle|].
  exact (trailer_refines_bounded_stack
           [Pop; Push 1; Push 2; Pop; Pop; Pop; Pop; Push 3] sample_packet Hle).
Defined.

(** ** A parsed route in the trailer *)




